(** * The prediction lifecycle server (server/index.js)

    A shallow embedding of the Express server that generates prediction
    market questions, submits them to a contract and later adjudicates
    them, together with the properties of its nonce handling, of its
    parsing of model output and of its request handlers. *)

From Stdlib Require Import String Ascii DecimalString.
From Stdlib Require Import List ZArith NArith Bool Lia SpecFloat.
Import ListNotations.
Local Open Scope list_scope.

Set Implicit Arguments.

(** ** JavaScript strings

    A JavaScript string is a sequence of UTF-16 code units. *)

Definition jsstring := list N.

(** A literal of the source, given by its ASCII text. *)
Definition js (s : string) : jsstring :=
  map N_of_ascii (list_ascii_of_string s).

Definition LF : N := 10.

(** WhiteSpace and LineTerminator code units, the ones [String.prototype.trim]
    and the number parsers strip. *)
Definition isWhiteSpace (c : N) : bool :=
  ((c =? 0x9) || (c =? 0xA) || (c =? 0xB) || (c =? 0xC) || (c =? 0xD)
   || (c =? 0x20) || (c =? 0xA0) || (c =? 0x1680)
   || ((0x2000 <=? c) && (c <=? 0x200A))
   || (c =? 0x2028) || (c =? 0x2029) || (c =? 0x202F) || (c =? 0x205F)
   || (c =? 0x3000) || (c =? 0xFEFF))%N.

Fixpoint trimStart (s : jsstring) : jsstring :=
  match s with
  | c :: s' => if isWhiteSpace c then trimStart s' else s
  | [] => []
  end.

Definition trimEnd (s : jsstring) : jsstring := rev (trimStart (rev s)).

(** [s.trim()] *)
Definition trim (s : jsstring) : jsstring := trimStart (trimEnd s).

(** [s.split('\n')]: the pieces between line feeds; never empty. *)
Fixpoint split_lines (s : jsstring) : list jsstring :=
  match s with
  | [] => [[]]
  | c :: s' =>
      if (c =? LF)%N then [] :: split_lines s'
      else match split_lines s' with
           | l :: ls => (c :: l) :: ls
           | [] => [[c]]
           end
  end.

Definition no_line_feed (s : jsstring) : bool :=
  forallb (fun c => negb (c =? LF)%N) s.

Fixpoint startsWith (needle s : jsstring) : bool :=
  match needle, s with
  | [], _ => true
  | n :: needle', c :: s' => (n =? c)%N && startsWith needle' s'
  | _ :: _, [] => false
  end.

(** [s.includes(needle)] *)
Fixpoint includes (needle s : jsstring) : bool :=
  startsWith needle s
  || match s with
     | _ :: s' => includes needle s'
     | [] => false
     end.

(** ** JavaScript numbers

    A Number is an IEEE 754 binary64 value: [spec_float] at precision 53
    and maximal exponent 1024. *)

Definition number := spec_float.

Definition prec : Z := 53.
Definition emax : Z := 1024.

Definition NaN : number := S754_nan.

(** The Number nearest to an integer (ties to even). *)
Definition number_of_Z (z : Z) : number := binary_normalize prec emax z 0 false.

(** [isNaN(x)] on a Number. *)
Definition isNaN (x : number) : bool :=
  match x with
  | S754_nan => true
  | _ => false
  end.

(** [x === y] and [x !== y] on Numbers: NaN differs from everything, the two
    zeros are equal. *)
Definition strict_eq (x y : number) : bool := SFeqb x y.
Definition strict_neq (x y : number) : bool := negb (SFeqb x y).

(** *** parseInt

    [parseInt(string)] with no radix, step by step as ECMA-262 gives it. *)

Definition digit_value (c : N) : option N :=
  (if (48 <=? c) && (c <=? 57) then Some (c - 48)
   else if (97 <=? c) && (c <=? 122) then Some (c - 97 + 10)
   else if (65 <=? c) && (c <=? 90) then Some (c - 65 + 10)
   else None)%N.

(** The values of the longest prefix of [s] made of radix-[R] digits. *)
Fixpoint digits_prefix (R : N) (s : jsstring) : list N :=
  match s with
  | c :: s' =>
      match digit_value c with
      | Some d => if (d <? R)%N then d :: digits_prefix R s' else []
      | None => []
      end
  | [] => []
  end.

(** The integer a digit sequence denotes in radix [R]. *)
Definition mathInt (R : N) (ds : list N) : N :=
  fold_left (fun acc d => acc * R + d)%N ds 0%N.

(** Steps 3-4: the sign and the string behind it. *)
Definition strip_sign (s : jsstring) : bool * jsstring :=
  match s with
  | c :: s' =>
      if (c =? 45)%N then (true, s')
      else if (c =? 43)%N then (false, s')
      else (false, s)
  | [] => (false, [])
  end.

(** Steps 5-7 with radix undefined: radix 10, or 16 behind "0x" or "0X". *)
Definition strip_prefix (s : jsstring) : N * jsstring :=
  match s with
  | c0 :: c1 :: s' =>
      if ((c0 =? 48) && ((c1 =? 120) || (c1 =? 88)))%N then (16%N, s')
      else (10%N, s)
  | _ => (10%N, s)
  end.

(** Steps 1-11: the sign and the integer read from the front of the
    string, [None] where no digit is found. *)
Definition leading_integer (input : jsstring) : option (bool * N) :=
  let s := trimStart input in
  let '(neg, s) := strip_sign s in
  let '(R, s) := strip_prefix s in
  match digits_prefix R s with
  | [] => None
  | ds => Some (neg, mathInt R ds)
  end.

Definition signed (neg : bool) (m : N) : Z :=
  if neg then (- Z.of_N m)%Z else Z.of_N m.

(** Steps 10 and 12-13: NaN, a signed zero, or the Number nearest to the
    signed integer. *)
Definition parseInt (input : jsstring) : number :=
  match leading_integer input with
  | None => NaN
  | Some (neg, m) =>
      if (m =? 0)%N then S754_zero neg else number_of_Z (signed neg m)
  end.

(** ** Errors

    Every value the server throws or catches is an [Error] object; only its
    [message] is ever read. *)

Record exn := Error { message : jsstring }.

(** ** The verdict of the adjudicator

    Lines 251-257 of [determineOutcome]: from the text of the completion to
    the verdict, or to the error thrown inside the [try]. *)

Definition last_line (lines : list jsstring) : jsstring :=
  last lines (js "undefined").

Definition invalid_outcome : exn :=
  Error (js "Invalid outcome determined by AI").

Definition parse_outcome (content : jsstring) : exn + number :=
  let fullResponse := trim content in
  let lines := split_lines fullResponse in
  let outcome := parseInt (last_line lines) in
  if isNaN outcome
     || (strict_neq outcome (number_of_Z 0) && strict_neq outcome (number_of_Z 1))
  then inl invalid_outcome
  else inr outcome.


(** ** JSON values and object literals *)

Inductive json : Type :=
| JNull
| JBool (b : bool)
| JNum (n : number)
| JStr (s : jsstring)
| JArr (items : list json)
| JObj (props : list (jsstring * json)).

(** An object: its own properties, one entry per key, in the order in which
    they were defined. (The engine lists keys that are array indices first;
    nothing below depends on the order.) *)
Definition object := list (jsstring * json).

(** A JavaScript value as the handlers see it: [None] is [undefined]. *)
Definition value := option json.
Definition undefined : value := None.

Fixpoint str_eqb (a b : jsstring) : bool :=
  match a, b with
  | [], [] => true
  | x :: a', y :: b' => (x =? y)%N && str_eqb a' b'
  | _, _ => false
  end.

(** [o.k] on a plain object: the own property, or [undefined]. *)
Fixpoint obj_get (k : jsstring) (o : object) : value :=
  match o with
  | [] => None
  | (k', v) :: o' => if str_eqb k k' then Some v else obj_get k o'
  end.

(** Defining the property [k]: overwritten where it exists, added last
    otherwise. *)
Fixpoint obj_set (k : jsstring) (v : json) (o : object) : object :=
  match o with
  | [] => [(k, v)]
  | (k', v') :: o' =>
      if str_eqb k k' then (k', v) :: o' else (k', v') :: obj_set k v o'
  end.

(** The decimal text of an array index. *)
Definition index_key (i : nat) : jsstring :=
  js (NilZero.string_of_uint (Nat.to_uint i)).

Fixpoint indexed (i : nat) (vs : list json) : list (jsstring * json) :=
  match vs with
  | [] => []
  | v :: vs' => (index_key i, v) :: indexed (S i) vs'
  end.

(** The own enumerable properties a spread [...v] copies. *)
Definition own_properties (v : json) : list (jsstring * json) :=
  match v with
  | JObj props => props
  | JArr items => indexed 0 items
  | JStr s => indexed 0 (map (fun c => JStr [c]) s)
  | JNull | JBool _ | JNum _ => []
  end.

(** [{ ...v }] *)
Definition spread (v : json) : object :=
  fold_left (fun o kv => obj_set (fst kv) (snd kv) o) (own_properties v) [].

(** ToBoolean, the test behind [!x] and [if (x)]. *)
Definition truthy (v : value) : bool :=
  match v with
  | None => false
  | Some JNull => false
  | Some (JBool b) => b
  | Some (JNum n) =>
      match n with
      | S754_zero _ | S754_nan => false
      | _ => true
      end
  | Some (JStr s) =>
      match s with
      | [] => false
      | _ => true
      end
  | Some (JArr _) | Some (JObj _) => true
  end.

(** ** JSON.parse *)

(** The Number a decimal literal [m * 10^e] denotes, rounded to nearest,
    ties to even. *)
Definition number_of_decimal (neg : bool) (m : N) (e : Z) : number :=
  match m with
  | N0 => S754_zero neg
  | Npos p =>
      if (0 <=? e)%Z then binary_round prec emax neg (p * Z.to_pos (10 ^ e)) 0
      else
        let den := (10 ^ (- e))%Z in
        let s := Z.max 0 (Z.log2 den - Z.log2 (Zpos p) + 56) in
        let '(q, r) := Z.div_eucl (Z.shiftl (Zpos p) s) den in
        binary_round_aux prec emax neg q (- s) (new_location den r)
  end.

Fixpoint span_digits (s : jsstring) : list N * jsstring :=
  match s with
  | c :: s' =>
      if ((48 <=? c) && (c <=? 57))%N
      then let '(ds, r) := span_digits s' in ((c - 48)%N :: ds, r)
      else ([], s)
  | [] => ([], [])
  end.

(** The JSON number grammar: an optional minus; an integer part, 0 alone or
    digits not starting with 0; an optional fraction, a dot and digits; an
    optional exponent, e or E, an optional sign and digits. *)
Definition parse_number (w : jsstring) : option number :=
  let '(neg, s) :=
    match w with
    | c :: s' => if (c =? 45)%N then (true, s') else (false, w)
    | [] => (false, w)
    end in
  let '(int, s) := span_digits s in
  let int_ok :=
    match int with
    | [] => false
    | d :: ds => negb ((d =? 0)%N && negb (length ds =? 0)%nat)
    end in
  let '(frac, frac_ok, s) :=
    match s with
    | c :: s' =>
        if (c =? 46)%N
        then let '(f, r) := span_digits s' in (f, negb (length f =? 0)%nat, r)
        else ([], true, s)
    | [] => ([], true, s)
    end in
  let '(e, exp_ok, s) :=
    match s with
    | c :: s' =>
        if ((c =? 101) || (c =? 69))%N then
          let '(eneg, s'') :=
            match s' with
            | c' :: r =>
                if (c' =? 45)%N then (true, r)
                else if (c' =? 43)%N then (false, r)
                else (false, s')
            | [] => (false, s')
            end in
          let '(ds, r) := span_digits s'' in
          let x := Z.of_N (mathInt 10 ds) in
          (if eneg then (- x)%Z else x, negb (length ds =? 0)%nat, r)
        else (0%Z, true, s)
    | [] => (0%Z, true, s)
    end in
  match s with
  | [] =>
      if int_ok && frac_ok && exp_ok
      then Some (number_of_decimal neg (mathInt 10 (int ++ frac))
                   (e - Z.of_nat (length frac)))
      else None
  | _ :: _ => None
  end.

Inductive token : Type :=
| TLBrace | TRBrace | TLBracket | TRBracket | TColon | TComma
| TString (s : jsstring)
| TWord (w : jsstring).

(** JSON white space: tab, line feed, carriage return, space. *)
Definition is_json_ws (c : N) : bool :=
  ((c =? 9) || (c =? 10) || (c =? 13) || (c =? 32))%N.

Definition structural (c : N) : option token :=
  (if c =? 123 then Some TLBrace
   else if c =? 125 then Some TRBrace
   else if c =? 91 then Some TLBracket
   else if c =? 93 then Some TRBracket
   else if c =? 58 then Some TColon
   else if c =? 44 then Some TComma
   else None)%N.

Definition hex_value (c : N) : option N :=
  match digit_value c with
  | Some d => if (d <? 16)%N then Some d else None
  | None => None
  end.

(** The character an escape [\c] stands for; [\u] is handled apart. *)
Definition escape_value (c : N) : option N :=
  (if (c =? 34) || (c =? 92) || (c =? 47) then Some c
   else if c =? 98 then Some 8
   else if c =? 102 then Some 12
   else if c =? 110 then Some 10
   else if c =? 114 then Some 13
   else if c =? 116 then Some 9
   else None)%N.

Inductive lexmode : Type :=
| Between
| InWord (w_rev : jsstring)
| InString (acc_rev : jsstring)
| Escape (acc_rev : jsstring)
| Unicode (acc_rev : jsstring) (remaining : nat) (code : N).

Definition close_word (m : lexmode) (toks_rev : list token) : list token :=
  match m with
  | InWord w => TWord (rev w) :: toks_rev
  | _ => toks_rev
  end.

(** The tokens of a JSON text; [None] where no token matches. *)
Fixpoint lex (m : lexmode) (toks_rev : list token) (s : jsstring)
  : option (list token) :=
  match s with
  | [] =>
      match m with
      | Between | InWord _ => Some (rev (close_word m toks_rev))
      | InString _ | Escape _ | Unicode _ _ _ => None
      end
  | c :: s' =>
      match m with
      | Between | InWord _ =>
          if is_json_ws c then lex Between (close_word m toks_rev) s'
          else if (c =? 34)%N then lex (InString []) (close_word m toks_rev) s'
          else match structural c with
               | Some t => lex Between (t :: close_word m toks_rev) s'
               | None =>
                   match m with
                   | InWord w => lex (InWord (c :: w)) toks_rev s'
                   | _ => lex (InWord [c]) toks_rev s'
                   end
               end
      | InString acc =>
          if (c =? 34)%N then lex Between (TString (rev acc) :: toks_rev) s'
          else if (c =? 92)%N then lex (Escape acc) toks_rev s'
          else if (c <? 32)%N then None
          else lex (InString (c :: acc)) toks_rev s'
      | Escape acc =>
          if (c =? 117)%N then lex (Unicode acc 4 0%N) toks_rev s'
          else match escape_value c with
               | Some x => lex (InString (x :: acc)) toks_rev s'
               | None => None
               end
      | Unicode acc remaining code =>
          match hex_value c with
          | Some d =>
              let code' := (code * 16 + d)%N in
              match remaining with
              | S (S k) => lex (Unicode acc (S k) code') toks_rev s'
              | _ => lex (InString (code' :: acc)) toks_rev s'
              end
          | None => None
          end
      end
  end.

(** A word between separators: a literal name or a number. *)
Definition word_value (w : jsstring) : option json :=
  if str_eqb w (js "true") then Some (JBool true)
  else if str_eqb w (js "false") then Some (JBool false)
  else if str_eqb w (js "null") then Some JNull
  else option_map JNum (parse_number w).

(** The containers around the value being read. *)
Inductive frame : Type :=
| FArr (items_rev : list json)
| FObj (props : object) (key : jsstring).

Inductive pmode : Type :=
| MValue
| MFirstElem
| MCommaOrCloseArr
| MKeyOrClose
| MKey (props : object)
| MColon (props : object) (key : jsstring)
| MCommaOrCloseObj (props : object)
| MDone (v : json).

(** A value is complete: it goes into the container around it. *)
Definition complete (v : json) (stack : list frame) : pmode * list frame :=
  match stack with
  | [] => (MDone v, [])
  | FArr items :: stack' => (MCommaOrCloseArr, FArr (v :: items) :: stack')
  | FObj props key :: stack' => (MCommaOrCloseObj (obj_set key v props), stack')
  end.

Definition start_value (t : token) (stack : list frame)
  : option (pmode * list frame) :=
  match t with
  | TLBracket => Some (MFirstElem, FArr [] :: stack)
  | TLBrace => Some (MKeyOrClose, stack)
  | TString s => Some (complete (JStr s) stack)
  | TWord w => option_map (fun v => complete v stack) (word_value w)
  | _ => None
  end.

Definition close_array (stack : list frame) : option (pmode * list frame) :=
  match stack with
  | FArr items :: stack' => Some (complete (JArr (rev items)) stack')
  | _ => None
  end.

Definition pstep (m : pmode) (stack : list frame) (t : token)
  : option (pmode * list frame) :=
  match m with
  | MValue => start_value t stack
  | MFirstElem =>
      match t with
      | TRBracket => close_array stack
      | _ => start_value t stack
      end
  | MCommaOrCloseArr =>
      match t with
      | TComma => Some (MValue, stack)
      | TRBracket => close_array stack
      | _ => None
      end
  | MKeyOrClose =>
      match t with
      | TString k => Some (MColon [] k, stack)
      | TRBrace => Some (complete (JObj []) stack)
      | _ => None
      end
  | MKey props =>
      match t with
      | TString k => Some (MColon props k, stack)
      | _ => None
      end
  | MColon props k =>
      match t with
      | TColon => Some (MValue, FObj props k :: stack)
      | _ => None
      end
  | MCommaOrCloseObj props =>
      match t with
      | TComma => Some (MKey props, stack)
      | TRBrace => Some (complete (JObj props) stack)
      | _ => None
      end
  | MDone _ => None
  end.

Fixpoint parse_tokens (m : pmode) (stack : list frame) (ts : list token)
  : option json :=
  match ts with
  | [] =>
      match m with
      | MDone v => Some v
      | _ => None
      end
  | t :: ts' =>
      match pstep m stack t with
      | Some (m', stack') => parse_tokens m' stack' ts'
      | None => None
      end
  end.

(** [JSON.parse(text)]: the value, or [None] where it throws a
    SyntaxError. *)
Definition JSON_parse (text : jsstring) : option json :=
  match lex Between [] text with
  | Some ts => parse_tokens MValue [] ts
  | None => None
  end.

(** The text of the errors the JavaScript engine itself throws is not fixed
    by the language; it is left open. *)
Record engine := {
  (** the message of the SyntaxError of [JSON.parse(text)] *)
  syntax_error_message : jsstring -> jsstring;
  (** the message of the TypeError of [v.map(...)] where [v] is no array *)
  map_type_error_message : json -> jsstring
}.

(** ** The collaborators: retrieval service, language model, chain *)

Inductive method : Type := createPrediction | finalizePrediction.

(** The overrides object behind the arguments of a contract write: absent,
    or [{ nonce: n }] with [n] the value of [currentNonce]. *)
Inductive overrides : Type :=
| NoOverrides
| Nonce (n : option Z).

Record tx := Tx { hash : jsstring }.

(** The requests the server awaits. A request that is built from a
    template carries the values that go into the template. *)
Inductive call : Type :=
| PerplexityPost (query : value)
| GenerationCompletion (topic : value) (perplexityData : jsstring)
| OutcomeCompletion (description : value) (currentData : jsstring)
| GetTransactionCount
| ContractSend (m : method) (args : list value) (o : overrides)
| TxWait (t : tx)
| GetPredictionDetails (predictionId : jsstring).

(** What a fulfilled request yields: the content of the first choice of a
    completion, the transaction count, the transaction, the block number of
    the receipt, the description of the prediction. Transaction counts and
    block numbers are integers far inside the range in which Number
    arithmetic is exact. *)
Definition reply (c : call) : Type :=
  match c with
  | PerplexityPost _ => jsstring
  | GenerationCompletion _ _ => jsstring
  | OutcomeCompletion _ _ => jsstring
  | GetTransactionCount => Z
  | ContractSend _ _ _ => tx
  | TxWait _ => Z
  | GetPredictionDetails _ => jsstring
  end.

(** An awaited request settles: rejected with an error, or fulfilled. *)
Definition settled (c : call) : Type := (exn + reply c)%type.

(** ** Asynchronous code

    The body of an async function: it returns, throws, reads or writes the
    module-level [currentNonce] ([None] is [null]), or awaits a request and
    goes on with the way it settled. Code between two awaits runs without
    interruption. *)

Inductive async (R : Type) : Type :=
| Return (r : R)
| Throw (e : exn)
| GetNonce (k : option Z -> async R)
| SetNonce (v : option Z) (k : async R)
| Await (c : call) (k : settled c -> async R).

Arguments Return {R} r.
Arguments Throw {R} e.
Arguments GetNonce {R} k.
Arguments SetNonce {R} v k.
Arguments Await {R} c k.

Fixpoint bind {A B : Type} (p : async A) (f : A -> async B) : async B :=
  match p with
  | Return a => f a
  | Throw e => Throw e
  | GetNonce k => GetNonce (fun v => bind (k v) f)
  | SetNonce v k => SetNonce v (bind k f)
  | Await c k => Await c (fun r => bind (k r) f)
  end.

(** [try { p } catch (error) { handler error }] *)
Fixpoint try_catch {A : Type} (p : async A) (handler : exn -> async A)
  : async A :=
  match p with
  | Return a => Return a
  | Throw e => handler e
  | GetNonce k => GetNonce (fun v => try_catch (k v) handler)
  | SetNonce v k => SetNonce v (try_catch k handler)
  | Await c k => Await c (fun r => try_catch (k r) handler)
  end.

(** [await c]: the value, or the rejection thrown. *)
Definition await (c : call) : async (reply c) :=
  Await c (fun r => match r with
                    | inl e => Throw e
                    | inr x => Return x
                    end).

Definition get_nonce : async (option Z) := GetNonce (fun v => Return v).
Definition set_nonce (v : option Z) : async unit := SetNonce v (Return tt).

Declare Scope async_scope.
Delimit Scope async_scope with async.
Bind Scope async_scope with async.
Notation "x <- p ;; q" := (bind p (fun x => q))
  (at level 61, p at next level, right associativity) : async_scope.
Notation "p ;; q" := (bind p (fun _ => q))
  (at level 61, right associativity) : async_scope.
Local Open Scope async_scope.

(** ** The server *)

(** [getPerplexityData(query)] *)
Definition getPerplexityData (query : value) : async jsstring :=
  try_catch
    (await (PerplexityPost query))
    (fun error =>
       Throw (Error (js "Failed to fetch data from Perplexity: "
                     ++ message error))).

(** The Number literals of the source. *)
Definition num (z : Z) : json := JNum (number_of_Z z).

(** The object literal of the [map] callback of [generatePredictions]:
    the prediction spread, then the four fields. *)
Definition with_policy (prediction : json) : object :=
  obj_set (js "optionsCount") (num 2)
    (obj_set (js "predictionType") (num 0)
       (obj_set (js "maxVotes") (num 1000)
          (obj_set (js "minVotes") (num 1)
             (spread prediction)))).

(** [generatePredictions(topic)] *)
Definition generatePredictions (E : engine) (topic : value)
  : async (list object) :=
  try_catch
    (perplexityData <- getPerplexityData topic ;;
     content <- await (GenerationCompletion topic perplexityData) ;;
     match JSON_parse content with
     | None => Throw (Error (syntax_error_message E content))
     | Some (JArr predictions) => Return (map with_policy predictions)
     | Some v => Throw (Error (map_type_error_message E v))
     end)
    (fun error =>
       Throw (Error (js "Failed to generate predictions: " ++ message error))).

(** The four fields of the market policy, as an item carries them. *)
Definition policy_fields (prediction : object) : Prop :=
  obj_get (js "minVotes") prediction = Some (num 1)
  /\ obj_get (js "maxVotes") prediction = Some (num 1000)
  /\ obj_get (js "predictionType") prediction = Some (num 0)
  /\ obj_get (js "optionsCount") prediction = Some (num 2).

(** [currentNonce++]: ToNumeric takes [null] to 0. *)
Definition increment (currentNonce : option Z) : option Z :=
  match currentNonce with
  | Some n => Some (n + 1)%Z
  | None => Some 1%Z
  end.

(** The arguments of [contract.createPrediction] before the overrides. *)
Definition createPrediction_args (prediction : object) : list value :=
  [ obj_get (js "description") prediction;
    obj_get (js "duration") prediction;
    obj_get (js "minVotes") prediction;
    obj_get (js "maxVotes") prediction;
    obj_get (js "predictionType") prediction;
    obj_get (js "optionsCount") prediction;
    obj_get (js "tags") prediction ].

(** The contract write of a submission, with the nonce it attaches. *)
Definition create_call (prediction : object) (currentNonce : option Z) : call :=
  ContractSend createPrediction (createPrediction_args prediction)
    (Nonce currentNonce).

(** [createPredictionOnContract(prediction)] *)
Definition createPredictionOnContract (prediction : object) : async jsstring :=
  try_catch
    (currentNonce <- get_nonce ;;
     match currentNonce with
     | None =>
         count <- await GetTransactionCount ;;
         set_nonce (Some count)
     | Some _ => Return tt
     end ;;
     currentNonce <- get_nonce ;;
     t <- await (ContractSend createPrediction
                   (createPrediction_args prediction) (Nonce currentNonce)) ;;
     currentNonce <- get_nonce ;;
     set_nonce (increment currentNonce) ;;
     _ <- await (TxWait t) ;;
     Return (hash t))
    (fun error =>
       (if includes (js "nonce too low") (message error)
        then set_nonce None
        else Return tt) ;;
       Throw (Error (js "Failed to create prediction on contract: "
                     ++ message error))).

(** [determineOutcome(description, currentData)] *)
Definition determineOutcome (description : value) (currentData : jsstring)
  : async number :=
  try_catch
    (content <- await (OutcomeCompletion description currentData) ;;
     match parse_outcome content with
     | inl error => Throw error
     | inr outcome => Return outcome
     end)
    (fun error =>
       Throw (Error (js "Failed to determine outcome: " ++ message error))).

(** *** The request handlers

    A response is the status set by [res.status] (200 where it is not set)
    and the value given to [res.json]. The [stack] field of the 500
    responses is text of the engine and is left out. *)

Record response := Response { status : Z; body : json }.

Definition error_response (code : Z) (msg : jsstring) : response :=
  Response code (JObj [(js "error", JStr msg)]).

(** The loop of the creation flow over the predictions still to submit;
    [createdPredictions] is the array pushed to. *)
Fixpoint create_loop (predictions : list object) (createdPredictions : list json)
  : async (list json) :=
  match predictions with
  | [] => Return createdPredictions
  | prediction :: rest =>
      created <-
        try_catch
          (txHash <- createPredictionOnContract prediction ;;
           Return (createdPredictions
                   ++ [JObj (obj_set (js "transactionHash") (JStr txHash)
                               (spread (JObj prediction)))]))
          (fun error =>
             Return (createdPredictions
                     ++ [JObj (obj_set (js "error") (JStr (message error))
                                 (spread (JObj prediction)))])) ;;
      create_loop rest created
  end.

(** [app.post("/generate-predictions")]; [req_body] is [req.body] as
    [express.json()] leaves it: the object parsed from the request, or the
    empty object. *)
Definition post_generate_predictions (E : engine) (req_body : object)
  : async response :=
  try_catch
    (let topic := obj_get (js "topic") req_body in
     if negb (truthy topic) then
       Return (error_response 400 (js "Topic is required"))
     else
       predictions <- generatePredictions E topic ;;
       createdPredictions <- create_loop predictions [] ;;
       Return (Response 200
                 (JObj [(js "predictions", JArr createdPredictions)])))
    (fun error => Return (error_response 500 (message error))).

(** [app.post("/finalize-prediction/:id")]; [predictionId] is
    [req.params.id]. *)
Definition post_finalize_prediction (predictionId : jsstring)
  : async response :=
  try_catch
    (description <- await (GetPredictionDetails predictionId) ;;
     currentData <- getPerplexityData (Some (JStr description)) ;;
     outcome <- determineOutcome (Some (JStr description)) currentData ;;
     t <- await (ContractSend finalizePrediction
                   [Some (JStr predictionId); Some (JNum outcome)]
                   NoOverrides) ;;
     _ <- await (TxWait t) ;;
     Return (Response 200
               (JObj [(js "message",
                       JStr (js "Prediction " ++ predictionId
                             ++ js " finalized successfully"));
                      (js "outcome", JNum outcome);
                      (js "transactionHash", JStr (hash t))])))
    (fun error => Return (error_response 500 (message error))).

(** [app.post("/test/generate-predictions")] *)
Definition post_test_generate_predictions (E : engine) (req_body : object)
  : async response :=
  try_catch
    (let topic := obj_get (js "topic") req_body in
     if negb (truthy topic) then
       Return (error_response 400 (js "Topic is required"))
     else
       predictions <- generatePredictions E topic ;;
       Return (Response 200
                 (JObj [(js "predictions", JArr (map JObj predictions))])))
    (fun error => Return (error_response 500 (message error))).

(** [app.post("/test/finalize-prediction")]; past the guard the description
    is defined, so the [None] case of the echoed description is never
    taken. *)
Definition post_test_finalize_prediction (req_body : object) : async response :=
  try_catch
    (let description := obj_get (js "description") req_body in
     if negb (truthy description) then
       Return (error_response 400 (js "Prediction description is required"))
     else
       currentData <- getPerplexityData description ;;
       outcome <- determineOutcome description currentData ;;
       Return (Response 200
                 (JObj [(js "message",
                         JStr (js "Test prediction finalized successfully"));
                        (js "description",
                         match description with
                         | Some d => d
                         | None => JNull
                         end);
                        (js "outcome", JNum outcome);
                        (js "currentData", JStr currentData)])))
    (fun error => Return (error_response 500 (message error))).

(** ** Running the server against its collaborators *)

(** The collaborators: a state of the outside world, and how each request
    settles in it. *)
Record handler := Handler {
  world : Type;
  respond : forall c : call, world -> settled c * world
}.

(** A request made, and how it settled. *)
Record entry := Entry { e_call : call; e_reply : settled e_call }.
Arguments Entry e_call e_reply : clear implicits.

Record outcome_of (R W : Type) := Outcome {
  result : exn + R;
  nonce_after : option Z;
  world_after : W;
  log : list entry
}.

(** One piece of code run to its end, every request settling at once. *)
Fixpoint run (h : handler) {R : Type} (p : async R)
  (currentNonce : option Z) (w : world h) : outcome_of R (world h) :=
  match p with
  | Return r => Outcome (inr r) currentNonce w []
  | Throw e => Outcome (inl e) currentNonce w []
  | GetNonce k => run h (k currentNonce) currentNonce w
  | SetNonce v k => run h k v w
  | Await c k =>
      let '(r, w') := respond h c w in
      let o := run h (k r) currentNonce w' in
      Outcome (result o) (nonce_after o) (world_after o) (Entry c r :: log o)
  end.

(** *** One submission, spelled out

    The run of [createPredictionOnContract]: the read of the transaction
    count where the nonce is [null], the contract write, the wait, and the
    catch block wherever a request is rejected. *)

Definition creation_failed (error : exn) : exn :=
  Error (js "Failed to create prediction on contract: " ++ message error).

(** The catch block, entered with [currentNonce] and a rejection. *)
Definition caught {W : Type} (error : exn) (currentNonce : option Z) (w : W)
  (l : list entry) : outcome_of jsstring W :=
  Outcome (inl (creation_failed error))
    (if includes (js "nonce too low") (message error) then None else currentNonce)
    w l.

(** From the contract write on. *)
Definition broadcast (h : handler) (prediction : object)
  (currentNonce : option Z) (w : world h) (before : list entry)
  : outcome_of jsstring (world h) :=
  let c := ContractSend createPrediction (createPrediction_args prediction)
             (Nonce currentNonce) in
  match respond h c w with
  | (inl error, w1) => caught error currentNonce w1 (before ++ [Entry c (inl error)])
  | (inr t, w1) =>
      match respond h (TxWait t) w1 with
      | (inl error, w2) =>
          caught error (increment currentNonce) w2
            (before ++ [Entry c (inr t); Entry (TxWait t) (inl error)])
      | (inr block, w2) =>
          Outcome (inr (hash t)) (increment currentNonce) w2
            (before ++ [Entry c (inr t); Entry (TxWait t) (inr block)])
      end
  end.

Definition submission (h : handler) (prediction : object)
  (currentNonce : option Z) (w : world h) : outcome_of jsstring (world h) :=
  match currentNonce with
  | Some _ => broadcast h prediction currentNonce w []
  | None =>
      match respond h GetTransactionCount w with
      | (inl error, w0) =>
          caught error None w0 [Entry GetTransactionCount (inl error)]
      | (inr count, w0) =>
          broadcast h prediction (Some count) w0
            [Entry GetTransactionCount (inr count)]
      end
  end.

(** The item pushed for a prediction, by the way its submission ended. *)
Definition annotate (prediction : object) (r : exn + jsstring) : json :=
  match r with
  | inr txHash =>
      JObj (obj_set (js "transactionHash") (JStr txHash) (spread (JObj prediction)))
  | inl error =>
      JObj (obj_set (js "error") (JStr (message error)) (spread (JObj prediction)))
  end.

(** A prediction with the one field its submission earns it. *)
Definition annotated (prediction : object) (r : exn + jsstring) : json :=
  match r with
  | inr txHash => JObj (obj_set (js "transactionHash") (JStr txHash) prediction)
  | inl error => JObj (obj_set (js "error") (JStr (message error)) prediction)
  end.

(** An object holds each key once. *)
Definition well_formed (o : object) : Prop := NoDup (map fst o).

(** How the submissions of a list of predictions end, one after the
    other. *)
Fixpoint submissions (h : handler) (predictions : list object)
  (currentNonce : option Z) (w : world h) : list (exn + jsstring) :=
  match predictions with
  | [] => []
  | prediction :: rest =>
      let o := run h (createPredictionOnContract prediction) currentNonce w in
      result o :: submissions h rest (nonce_after o) (world_after o)
  end.

(** *** Requests in flight at the same time

    The event loop runs one piece of code at a time, up to its next await;
    which suspended piece goes on next is the order in which the requests
    settle. The await of a call of one of the server's own async functions
    is no stop of its own here: the caller goes on as soon as the function
    returns, which is the interleaving in which nothing else is scheduled in
    between. *)

(** A handler or function call in flight: finished, or suspended on the
    request it awaits. *)
Inductive task (R : Type) : Type :=
| Finished (r : exn + R)
| Pending (c : call) (k : settled c -> async R).

Arguments Finished {R} r.
Arguments Pending {R} c k.

(** Code run up to its next await. *)
Fixpoint advance {R : Type} (p : async R) (currentNonce : option Z)
  : task R * option Z :=
  match p with
  | Return r => (Finished (inr r), currentNonce)
  | Throw e => (Finished (inl e), currentNonce)
  | GetNonce k => advance (k currentNonce) currentNonce
  | SetNonce v k => advance k v
  | Await c k => (Pending c k, currentNonce)
  end.

Record loop_state (W R : Type) := LoopState {
  ls_nonce : option Z;
  ls_world : W;
  ls_tasks : list (task R);
  ls_log : list (nat * entry)
}.

(** What happens next: a call is made, or the request of the task at an
    index settles. *)
Inductive turn (R : Type) : Type :=
| Start (p : async R)
| Settle (i : nat).

Arguments Start {R} p.
Arguments Settle {R} i.

Fixpoint replace_nth {A : Type} (i : nat) (x : A) (l : list A) : list A :=
  match l, i with
  | [], _ => []
  | _ :: l', O => x :: l'
  | y :: l', S i' => y :: replace_nth i' x l'
  end.

Definition take_turn (h : handler) {R : Type}
  (st : loop_state (world h) R) (t : turn R) : loop_state (world h) R :=
  match t with
  | Start p =>
      let '(tk, n) := advance p (ls_nonce st) in
      LoopState n (ls_world st) (ls_tasks st ++ [tk]) (ls_log st)
  | Settle i =>
      match nth_error (ls_tasks st) i with
      | Some (Pending c k) =>
          let '(r, w) := respond h c (ls_world st) in
          let '(tk, n) := advance (k r) (ls_nonce st) in
          LoopState n w (replace_nth i tk (ls_tasks st))
            (ls_log st ++ [(i, Entry c r)])
      | _ => st
      end
  end.

Definition event_loop (h : handler) {R : Type}
  (st : loop_state (world h) R) (turns : list (turn R))
  : loop_state (world h) R :=
  fold_left (take_turn h) turns st.

(** The request a task is suspended on. *)
Definition awaited {R : Type} (t : task R) : option call :=
  match t with
  | Pending c _ => Some c
  | Finished _ => None
  end.

(** *** Reading a log *)

Definition is_count_read (e : entry) : bool :=
  match e_call e with
  | GetTransactionCount => true
  | _ => false
  end.

(** The overrides of the contract writes of a log, in order. *)
Fixpoint sent_overrides (l : list entry) : list overrides :=
  match l with
  | [] => []
  | e :: l' =>
      match e_call e with
      | ContractSend _ _ o => o :: sent_overrides l'
      | _ => sent_overrides l'
      end
  end.

(** The overrides [{ nonce: base }], [{ nonce: base + 1 }], ... of [count]
    writes. *)
Definition consecutive (base : Z) (count : nat) : list overrides :=
  map (fun i => Nonce (Some (base + Z.of_nat i)%Z)) (seq 0 count).

(** The error of a rejected request. *)
Definition rejection (e : entry) : option exn :=
  match e_reply e with
  | inl err => Some err
  | inr _ => None
  end.

(** The chain rejected the request as out of sequence. *)
Definition stale (e : entry) : bool :=
  match rejection e with
  | Some err => includes (js "nonce too low") (message err)
  | None => false
  end.

(** A read of the transaction count or a contract write was rejected. *)
Definition refused (e : entry) : bool :=
  match e_call e, rejection e with
  | GetTransactionCount, Some _ => true
  | ContractSend _ _ _, Some _ => true
  | _, _ => false
  end.

(** *** A scripted world for examples

    Each request settles as the script says: [None] fulfils it with a stock
    reply, [Some msg] rejects it with that message; past the end of the
    script every request is fulfilled. *)

Record stock := Stock {
  stock_digest : jsstring;
  stock_generation : jsstring;
  stock_verdict : jsstring;
  stock_count : Z;
  stock_description : jsstring
}.

Definition stock_reply (d : stock) (i : nat) (c : call) : reply c :=
  match c return reply c with
  | PerplexityPost _ => stock_digest d
  | GenerationCompletion _ _ => stock_generation d
  | OutcomeCompletion _ _ => stock_verdict d
  | GetTransactionCount => stock_count d
  | ContractSend _ _ _ => Tx (js "0x" ++ index_key i)
  | TxWait _ => Z.of_nat i
  | GetPredictionDetails _ => stock_description d
  end.

Definition scripted (d : stock) : handler :=
  Handler (world := nat * list (option jsstring))
    (fun c w =>
       let '(i, script) := w in
       match script with
       | Some msg :: rest => (inl (Error msg), (S i, rest))
       | None :: rest => (inr (stock_reply d i c), (S i, rest))
       | [] => (inr (stock_reply d i c), (S i, []))
       end).

(** The wording of V8, the engine of Node.js. *)
Definition v8 : engine :=
  {| syntax_error_message := fun _ => js "Unexpected token in JSON";
     map_type_error_message := fun _ => js "predictions.map is not a function" |}.

(** A string literal of a JSON text: the text between quotation marks. *)
Definition quoted (s : string) : jsstring := (34%N :: js s) ++ [34%N].

(** A JSON object with a description, a duration and tags, as the model is
    asked to write them; [extra] is further text before the closing brace. *)
Definition demo_item (description : string) (duration : string)
  (tag1 tag2 tag3 : string) (extra : jsstring) : jsstring :=
  js "{" ++ quoted "description" ++ js ":" ++ quoted description
  ++ js "," ++ quoted "duration" ++ js ":" ++ js duration
  ++ js "," ++ quoted "tags" ++ js ":["
  ++ quoted tag1 ++ js "," ++ quoted tag2 ++ js "," ++ quoted tag3 ++ js "]"
  ++ extra ++ js "}".

Definition demo_generation : jsstring :=
  js "["
  ++ demo_item "Will rates fall by December?" "86400" "rates" "fed" "macro"
       (js "," ++ quoted "minVotes" ++ js ":5")
  ++ js ","
  ++ demo_item "Will inflation exceed 3%?" "172800" "cpi" "macro" "prices" []
  ++ js ","
  ++ demo_item "Will unemployment rise?" "259200" "jobs" "labor" "macro" []
  ++ js "]".

Definition demo_stock : stock :=
  {| stock_digest := js "Rates were held in June.";
     stock_generation := demo_generation;
     stock_verdict := js "The data confirms it." ++ [LF] ++ js "1";
     stock_count := 7;
     stock_description := js "Will rates fall by December?" |}.

(** Three normalized predictions for the examples. *)
Definition demo_predictions : list object :=
  [ with_policy (JObj [(js "description", JStr (js "Will rates fall by December?"))]);
    with_policy (JObj [(js "description", JStr (js "Will inflation exceed 3%?"))]);
    with_policy (JObj [(js "description", JStr (js "Will unemployment rise?"))]) ].


(** *** More ways of reading a log *)

(** A request to the chain: a read of the count or of a prediction, a
    contract write, a wait for a confirmation. *)
Definition is_chain_call (c : call) : bool :=
  match c with
  | GetTransactionCount | ContractSend _ _ _ | TxWait _ | GetPredictionDetails _ =>
      true
  | PerplexityPost _ | GenerationCompletion _ _ | OutcomeCompletion _ _ => false
  end.

(** No request of the log goes to the chain. *)
Definition chain_free (l : list entry) : Prop :=
  forall e, In e l -> is_chain_call (e_call e) = false.

Definition is_write (e : entry) : bool :=
  match e_call e with
  | ContractSend _ _ _ => true
  | _ => false
  end.

(** The contract writes of a log that the chain accepted. *)
Definition accepted_writes (l : list entry) : list entry :=
  filter (fun e => is_write e && match rejection e with
                                 | None => true
                                 | Some _ => false
                                 end) l.

(** The nonces a sequencer that starts at [n] attaches to the writes of a
    log when each accepted write, and no other, moves it on by one. *)
Fixpoint replay_nonces (n : Z) (l : list entry) : list overrides :=
  match l with
  | [] => []
  | e :: l' =>
      if is_write e then
        Nonce (Some n)
        :: replay_nonces (match rejection e with
                          | None => (n + 1)%Z
                          | Some _ => n
                          end) l'
      else replay_nonces n l'
  end.

(** The names of the four fields of the market policy. *)
Definition is_policy_key (k : jsstring) : bool :=
  str_eqb k (js "minVotes") || str_eqb k (js "maxVotes")
  || str_eqb k (js "predictionType") || str_eqb k (js "optionsCount").

(** *** The outermost value of a JSON text being parsed *)

(** The outermost container of a stack. *)
Fixpoint bottom (stack : list frame) : option frame :=
  match stack with
  | [] => None
  | [f] => Some f
  | _ :: stack' => bottom stack'
  end.

(** The parser is inside an object that is the outermost value, or has
    just finished one. *)
Definition in_object (m : pmode) (stack : list frame) : Prop :=
  match m with
  | MDone v =>
      stack = [] /\ match v with
                    | JObj _ => True
                    | _ => False
                    end
  | _ =>
      match bottom stack with
      | Some (FObj _ _) => True
      | Some (FArr _) => False
      | None =>
          match m with
          | MKeyOrClose | MKey _ | MColon _ _ | MCommaOrCloseObj _ => True
          | _ => False
          end
      end
  end.

(** The token that opens an array. *)
Definition is_bracket (t : token) : bool :=
  match t with
  | TLBracket => true
  | _ => false
  end.

(** ** Properties of the request guards *)

(** C9: a POST /generate-predictions whose body has no topic is answered
    with status 400 and an error field, and no request to the retrieval
    service, the model or the chain is made: the log is empty and nonce and
    world are untouched. *)
Theorem missing_topic_is_rejected :
  forall (E : engine) (h : handler) (req_body : object)
         (currentNonce : option Z) (w : world h),
    obj_get (js "topic") req_body = undefined ->
    run h (post_generate_predictions E req_body) currentNonce w
    = Outcome (inr (Response 400 (JObj [(js "error", JStr (js "Topic is required"))])))
        currentNonce w [].
Proof.
  intros E h req_body currentNonce w Hmissing.
  unfold post_generate_predictions.
  rewrite Hmissing. reflexivity.
Qed.

Lemma missing_topic_is_rejected_witness :
  run (scripted demo_stock) (post_generate_predictions v8 []) (Some 7%Z) (O, [])
  = Outcome (inr (Response 400 (JObj [(js "error", JStr (js "Topic is required"))])))
      (Some 7%Z) (O, []) [].
Proof.
  apply (@missing_topic_is_rejected v8 (scripted demo_stock) [] (Some 7%Z) (O, [])).
  reflexivity.
Defined.

(** C10: a topic that is present but falsy (the empty string, null, false,
    a zero) is answered like a missing one, by /generate-predictions and by
    /test/generate-predictions: status 400, an error field, and no request
    made. *)
Theorem falsy_topic_is_rejected :
  forall (E : engine) (h : handler) (req_body : object) (topic : json)
         (currentNonce : option Z) (w : world h),
    obj_get (js "topic") req_body = Some topic ->
    truthy (Some topic) = false ->
    run h (post_generate_predictions E req_body) currentNonce w
    = Outcome (inr (Response 400 (JObj [(js "error", JStr (js "Topic is required"))])))
        currentNonce w []
    /\ run h (post_test_generate_predictions E req_body) currentNonce w
       = Outcome (inr (Response 400 (JObj [(js "error", JStr (js "Topic is required"))])))
           currentNonce w [].
Proof.
  intros E h req_body topic currentNonce w Hpresent Hfalsy.
  unfold post_generate_predictions, post_test_generate_predictions.
  rewrite Hpresent, Hfalsy. split; reflexivity.
Qed.

Lemma falsy_topic_is_rejected_witness :
  run (scripted demo_stock)
    (post_generate_predictions v8 [(js "topic", JStr [])]) None (O, [])
  = Outcome (inr (Response 400 (JObj [(js "error", JStr (js "Topic is required"))])))
      None (O, []) []
  /\ run (scripted demo_stock)
       (post_test_generate_predictions v8 [(js "topic", JStr [])]) None (O, [])
     = Outcome (inr (Response 400 (JObj [(js "error", JStr (js "Topic is required"))])))
         None (O, []) [].
Proof.
  apply (@falsy_topic_is_rejected v8 (scripted demo_stock)
           [(js "topic", JStr [])] (JStr []) None (O, [])); reflexivity.
Defined.

(** ** Rounding an integer to a Number

    The Number nearest to a non-zero integer is no zero, and it is 1 only
    for the integer 1: what [parseInt] returns compares with 0 and 1 the way
    the integer it read does. *)

Lemma digits2_pos_size : forall p, digits2_pos p = Pos.size p.
Proof. induction p; simpl; congruence. Qed.

Lemma Zdigits2_log2 : forall p, Zpos (digits2_pos p) = Z.succ (Z.log2 (Zpos p)).
Proof.
  intro p. rewrite digits2_pos_size.
  destruct p; simpl; try rewrite Pos2Z.inj_succ; reflexivity.
Qed.

Lemma shr_1_m : forall mrs, (0 <= shr_m mrs)%Z ->
  shr_m (shr_1 mrs) = Z.shiftr (shr_m mrs) 1.
Proof.
  intros [m r t] Hm. simpl in *.
  destruct m as [|[q|q|]|q]; try reflexivity; lia.
Qed.

Lemma iter_shr_1_m : forall k mrs, (0 <= shr_m mrs)%Z ->
  shr_m (iter_pos shr_1 k mrs) = Z.shiftr (shr_m mrs) (Zpos k).
Proof.
  induction k as [k IH|k IH|]; intros mrs Hm; simpl iter_pos.
  - assert (H1 : (0 <= shr_m (shr_1 mrs))%Z)
      by (rewrite shr_1_m by assumption; apply Z.shiftr_nonneg; assumption).
    assert (H2 : (0 <= shr_m (iter_pos shr_1 k (shr_1 mrs)))%Z)
      by (rewrite IH by assumption; apply Z.shiftr_nonneg; assumption).
    rewrite IH, IH, shr_1_m by assumption.
    rewrite !Z.shiftr_shiftr by lia. f_equal. lia.
  - assert (H2 : (0 <= shr_m (iter_pos shr_1 k mrs))%Z)
      by (rewrite IH by assumption; apply Z.shiftr_nonneg; assumption).
    rewrite IH, IH by assumption.
    rewrite Z.shiftr_shiftr by lia. f_equal. lia.
  - apply shr_1_m; assumption.
Qed.

Lemma shiftr_pos : forall m k, (0 < m)%Z -> (0 <= k <= Z.log2 m)%Z ->
  (0 < Z.shiftr m k)%Z.
Proof.
  intros m k Hm Hk. rewrite Z.shiftr_div_pow2 by lia.
  apply Z.div_str_pos. split.
  - apply Z.pow_pos_nonneg; lia.
  - apply Z.le_trans with (2 ^ Z.log2 m)%Z.
    + apply Z.pow_le_mono_r; lia.
    + apply Z.log2_spec; assumption.
Qed.

Lemma shr_m_of_loc : forall m l, shr_m (shr_record_of_loc m l) = m.
Proof. intros m [|[| |]]; reflexivity. Qed.

(** Shifting to the exponent of the format keeps a positive mantissa
    positive and does not lower the exponent. *)
Lemma shr_fexp_pos : forall m e l,
  (0 < m)%Z -> (-1074 <= e)%Z ->
  (0 < shr_m (fst (shr_fexp prec emax m e l)))%Z
  /\ (e <= snd (shr_fexp prec emax m e l))%Z.
Proof.
  intros m e l Hm He. unfold shr_fexp, shr.
  destruct m as [|p|p]; try lia.
  unfold Zdigits2. rewrite Zdigits2_log2.
  unfold fexp, SpecFloat.emin, prec, emax.
  destruct (Z.max (Z.succ (Z.log2 (Z.pos p)) + e - 53) (3 - 1024 - 53) - e)%Z
    as [|k|k] eqn:Hn; simpl fst; simpl snd.
  - rewrite shr_m_of_loc. lia.
  - split; [|lia].
    rewrite iter_shr_1_m by (rewrite shr_m_of_loc; lia).
    rewrite shr_m_of_loc. apply shiftr_pos; lia.
  - rewrite shr_m_of_loc. lia.
Qed.

Lemma round_nearest_even_pos : forall m l,
  (0 < m)%Z -> (0 < round_nearest_even m l)%Z.
Proof.
  intros m [|[| |]] Hm; simpl; try lia.
  destruct (Z.even m); lia.
Qed.

Lemma binary_round_aux_shape : forall sx m e l,
  (0 < m)%Z -> (-1074 <= e)%Z ->
  binary_round_aux prec emax sx m e l = S754_infinity sx
  \/ exists m' e', binary_round_aux prec emax sx m e l = S754_finite sx m' e'
                   /\ (e <= e')%Z.
Proof.
  intros sx m e l Hm He. unfold binary_round_aux.
  destruct (shr_fexp_pos l Hm He) as [H1 H2].
  destruct (shr_fexp prec emax m e l) as [mrs' e'] eqn:E1. simpl in H1, H2.
  assert (H3 : (0 < round_nearest_even (shr_m mrs') (loc_of_shr_record mrs'))%Z)
    by (apply round_nearest_even_pos; assumption).
  assert (He' : (-1074 <= e')%Z) by lia.
  destruct (shr_fexp_pos loc_Exact H3 He') as [H4 H5].
  destruct (shr_fexp prec emax
              (round_nearest_even (shr_m mrs') (loc_of_shr_record mrs')) e'
              loc_Exact) as [mrs'' e''] eqn:E2.
  simpl in H4, H5.
  destruct (shr_m mrs'') as [|q|q]; try lia.
  destruct (Z.leb e'' (emax - prec)); [right|left; reflexivity].
  exists q, e''. split; [reflexivity|lia].
Qed.

Lemma binary_round_shape : forall sx p,
  binary_round prec emax sx p 0 = S754_infinity sx
  \/ exists m e, binary_round prec emax sx p 0 = S754_finite sx m e
                 /\ (Z.min 0 (Z.log2 (Zpos p) - 52) <= e)%Z.
Proof.
  intros sx p. unfold binary_round, shl_align.
  rewrite Zdigits2_log2. unfold fexp, SpecFloat.emin, prec, emax.
  pose proof (Z.log2_nonneg (Zpos p)) as Hlog.
  destruct (Z.max (Z.succ (Z.log2 (Z.pos p)) + 0 - 53) (3 - 1024 - 53) - 0)%Z
    as [|k|k] eqn:Hn.
  - destruct (@binary_round_aux_shape sx (Zpos p) 0%Z loc_Exact) as [H|(m & e & H & He)];
      try lia; [left; exact H|right].
    exists m, e. split; [exact H|lia].
  - destruct (@binary_round_aux_shape sx (Zpos p) 0%Z loc_Exact) as [H|(m & e & H & He)];
      try lia; [left; exact H|right].
    exists m, e. split; [exact H|lia].
  - set (e0 := Z.max (Z.succ (Z.log2 (Z.pos p)) + 0 - 53) (3 - 1024 - 53)) in *.
    destruct (@binary_round_aux_shape sx (Zpos (Pos.iter xO p k)) e0 loc_Exact)
      as [H|(m & e & H & He)]; try (unfold e0; lia); [left; exact H|right].
    exists m, e. split; [exact H|unfold e0 in *; lia].
Qed.

Lemma log2_xI : forall p, (1 <= Z.log2 (Zpos p~1))%Z.
Proof. intro p. simpl. lia. Qed.

Lemma log2_xO : forall p, (1 <= Z.log2 (Zpos p~0))%Z.
Proof. intro p. simpl. lia. Qed.

Lemma number_of_Z_compare : forall neg m, m <> 0%N ->
  isNaN (number_of_Z (signed neg m)) = false
  /\ strict_eq (number_of_Z (signed neg m)) (number_of_Z 0) = false
  /\ (strict_eq (number_of_Z (signed neg m)) (number_of_Z 1) = true
      -> neg = false /\ m = 1%N).
Proof.
  intros neg m Hm. destruct m as [|p]; [congruence|].
  assert (Hn : number_of_Z (signed neg (Npos p)) = binary_round prec emax neg p 0)
    by (destruct neg; reflexivity).
  rewrite Hn.
  change (number_of_Z 0) with (S754_zero false).
  change (number_of_Z 1) with (S754_finite false 4503599627370496 (-52)).
  destruct (binary_round_shape neg p) as [H|(q & e & H & He)]; rewrite H.
  - destruct neg; repeat split; try reflexivity; discriminate.
  - unfold strict_eq, SFeqb, SFcompare. destruct neg.
    + repeat split; try reflexivity; discriminate.
    + repeat split; try reflexivity;
        (destruct (Z.compare e (-52)) eqn:Hc; try discriminate;
         apply Z.compare_eq in Hc;
         destruct p as [p'|p'|]; [| |reflexivity]; exfalso;
         [pose proof (log2_xI p')|pose proof (log2_xO p')]; lia).
Qed.

(** ** The adjudicator *)

(** The verdict is decided by the integer at the front of the last line. *)
Lemma parse_outcome_spec : forall content,
  parse_outcome content
  = match leading_integer (last_line (split_lines (trim content))) with
    | Some (neg, 0%N) => inr (S754_zero neg)
    | Some (false, 1%N) => inr (number_of_Z 1)
    | _ => inl invalid_outcome
    end.
Proof.
  intro content. unfold parse_outcome, parseInt.
  destruct (leading_integer (last_line (split_lines (trim content))))
    as [[neg m]|]; [|reflexivity].
  destruct m as [|p]; [destruct neg; reflexivity|].
  change (N.pos p =? 0)%N with false. cbv iota.
  assert (Hm : N.pos p <> 0%N) by discriminate.
  destruct (number_of_Z_compare neg Hm) as (Hnan & H0 & H1).
  unfold strict_neq. fold (strict_eq (number_of_Z (signed neg (N.pos p))) (number_of_Z 0)).
  fold (strict_eq (number_of_Z (signed neg (N.pos p))) (number_of_Z 1)).
  rewrite Hnan, H0.
  destruct (strict_eq (number_of_Z (signed neg (N.pos p))) (number_of_Z 1)) eqn:E1.
  - destruct (H1 eq_refl) as [-> Hp]. injection Hp as ->. reflexivity.
  - simpl. destruct neg; [reflexivity|].
    destruct p; try reflexivity. vm_compute in E1. discriminate.
Qed.

(** *** The last line of a trimmed response *)

Lemma trimStart_app_ws : forall ws s,
  forallb isWhiteSpace ws = true -> trimStart (ws ++ s) = trimStart s.
Proof.
  induction ws as [|c ws IH]; intros s H; simpl in *; [reflexivity|].
  apply andb_true_iff in H as [Hc Hws]. rewrite Hc. apply IH; assumption.
Qed.

Lemma trimStart_head : forall c s,
  isWhiteSpace c = false -> trimStart (c :: s) = c :: s.
Proof. intros c s H. simpl. rewrite H. reflexivity. Qed.

Lemma forallb_rev : forall (f : N -> bool) l,
  forallb f (rev l) = forallb f l.
Proof.
  intros f l. induction l as [|x l IH]; simpl; [reflexivity|].
  rewrite forallb_app, IH. simpl. rewrite andb_true_r. apply andb_comm.
Qed.

(** Trailing white space goes; what ends in another character stays. *)
Lemma trimEnd_app_ws : forall s c ws,
  isWhiteSpace c = false -> forallb isWhiteSpace ws = true ->
  trimEnd (s ++ c :: ws) = s ++ [c].
Proof.
  intros s c ws Hc Hws. unfold trimEnd.
  rewrite rev_app_distr. simpl rev. rewrite <- app_assoc. simpl.
  rewrite trimStart_app_ws by (rewrite forallb_rev; assumption).
  rewrite trimStart_head by assumption.
  simpl. rewrite rev_involutive. reflexivity.
Qed.

Lemma split_lines_nonempty : forall s, split_lines s <> [].
Proof.
  destruct s as [|c s]; simpl; [discriminate|].
  destruct (c =? LF)%N; [discriminate|].
  destruct (split_lines s); discriminate.
Qed.

Lemma last_cons_more : forall (x : jsstring) ls d,
  ls <> [] -> last (x :: ls) d = last ls d.
Proof. intros x [|l ls] d H; [congruence|reflexivity]. Qed.

Lemma split_lines_app : forall a b d,
  exists l ls, split_lines (a ++ LF :: b) = l :: ls
               /\ ls <> [] /\ last ls d = last (split_lines b) d.
Proof.
  induction a as [|c a IH]; intros b d.
  - exists [], (split_lines b). simpl.
    repeat split. apply split_lines_nonempty.
  - destruct (IH b d) as (l & ls & E & Hne & Hlast).
    simpl. rewrite E. destruct (c =? LF)%N.
    + exists [], (l :: ls). repeat split; [discriminate|].
      rewrite last_cons_more by assumption. exact Hlast.
    + exists (c :: l), ls. repeat split; assumption.
Qed.

(** What follows the last line feed is the last line. *)
Lemma last_split_lines_app : forall a b,
  last_line (split_lines (a ++ LF :: b)) = last_line (split_lines b).
Proof.
  intros a b. unfold last_line.
  destruct (split_lines_app a b (js "undefined")) as (l & ls & E & Hne & Hlast).
  rewrite E, last_cons_more by assumption. exact Hlast.
Qed.

Lemma split_lines_one : forall s, no_line_feed s = true -> split_lines s = [s].
Proof.
  induction s as [|c s IH]; intro H; simpl in *; [reflexivity|].
  apply andb_true_iff in H as [Hc Hs].
  destruct (c =? LF)%N; [discriminate|]. rewrite IH by assumption. reflexivity.
Qed.

Lemma LF_is_white_space : isWhiteSpace LF = true.
Proof. reflexivity. Qed.

(** A response that ends, up to white space, in a line of its own has that
    line as the last line of its trimmed text. *)
Lemma last_line_of_trimmed : forall pre line ws,
  line <> [] ->
  isWhiteSpace (hd 0%N line) = false ->
  isWhiteSpace (last line 0%N) = false ->
  no_line_feed line = true ->
  forallb isWhiteSpace ws = true ->
  last_line (split_lines (trim (pre ++ LF :: line ++ ws))) = line.
Proof.
  intros pre line ws Hne Hhd Hlast Hnolf Hws.
  assert (Htrim : trimEnd (pre ++ LF :: line ++ ws) = pre ++ LF :: line).
  { destruct (exists_last Hne) as (mid & z & ->).
    rewrite last_last in Hlast.
    replace (pre ++ LF :: (mid ++ [z]) ++ ws)
      with ((pre ++ LF :: mid) ++ z :: ws)
      by (rewrite <- !app_assoc; reflexivity).
    rewrite trimEnd_app_ws by assumption.
    rewrite <- !app_assoc. reflexivity. }
  unfold trim. rewrite Htrim. clear Htrim.
  destruct line as [|c line]; [congruence|]. simpl in Hhd.
  induction pre as [|x pre IH].
  - simpl app. simpl trimStart. try rewrite LF_is_white_space. rewrite Hhd.
    rewrite split_lines_one by assumption. reflexivity.
  - simpl app. simpl trimStart. destruct (isWhiteSpace x); [exact IH|].
    change (x :: pre ++ LF :: c :: line) with ((x :: pre) ++ LF :: c :: line).
    rewrite last_split_lines_app, split_lines_one by assumption. reflexivity.
Qed.

(** [determineOutcome] makes one request and touches nothing else. *)
Lemma run_determineOutcome : forall h description currentData currentNonce w,
  run h (determineOutcome description currentData) currentNonce w
  = let c := OutcomeCompletion description currentData in
    Outcome
      (match fst (respond h c w) with
       | inl error =>
           inl (Error (js "Failed to determine outcome: " ++ message error))
       | inr content =>
           match parse_outcome content with
           | inl error =>
               inl (Error (js "Failed to determine outcome: " ++ message error))
           | inr outcome => inr outcome
           end
       end)
      currentNonce (snd (respond h c w)) [Entry c (fst (respond h c w))].
Proof.
  intros h description currentData currentNonce w.
  unfold determineOutcome. simpl.
  destruct (respond h (OutcomeCompletion description currentData) w) as [[e|content] w'].
  - reflexivity.
  - simpl. destruct (parse_outcome content); reflexivity.
Qed.

(** C2, as the code has it: the adjudicator trims the response, takes what
    follows the last line feed and reads it with [parseInt]. It returns a
    verdict exactly when that line begins, after optional white space and
    sign, with an integer of value 0 or 1 (in radix 10, or 16 behind 0x),
    whatever follows the digits; every other response fails with the
    adjudication error, and no default is substituted. The verdict is never
    a value other than 0 (of either sign) and 1. *)
Theorem verdict_follows_leading_integer :
  forall (h : handler) (description : value) (currentData : jsstring)
         (currentNonce : option Z) (w w' : world h) (content : jsstring),
    respond h (OutcomeCompletion description currentData) w = (inr content, w') ->
    let r := result (run h (determineOutcome description currentData) currentNonce w) in
    r = match leading_integer (last_line (split_lines (trim content))) with
        | Some (neg, 0%N) => inr (S754_zero neg)
        | Some (false, 1%N) => inr (number_of_Z 1)
        | _ => inl (Error (js "Failed to determine outcome: "
                           ++ message invalid_outcome))
        end
    /\ (forall v, r = inr v ->
          v = S754_zero false \/ v = S754_zero true \/ v = number_of_Z 1).
Proof.
  intros h description currentData currentNonce w w' content Hreply r.
  assert (Hr : r = match leading_integer (last_line (split_lines (trim content))) with
                   | Some (neg, 0%N) => inr (S754_zero neg)
                   | Some (false, 1%N) => inr (number_of_Z 1)
                   | _ => inl (Error (js "Failed to determine outcome: "
                                      ++ message invalid_outcome))
                   end).
  { unfold r. rewrite run_determineOutcome. cbv zeta. rewrite Hreply.
    simpl fst. simpl result. rewrite parse_outcome_spec.
    destruct (leading_integer (last_line (split_lines (trim content))))
      as [[[|] [|[p|p|]]]|]; reflexivity. }
  split; [exact Hr|].
  intros v Hv. rewrite Hr in Hv.
  destruct (leading_integer (last_line (split_lines (trim content))))
    as [[[|] [|[p|p|]]]|]; inversion Hv; auto.
Qed.

Lemma verdict_follows_leading_integer_witness :
  let r := result (run (scripted demo_stock)
                     (determineOutcome (Some (JStr (js "Will rates fall by December?")))
                        (js "Rates fell in November."))
                     None (O, [])) in
  r = inr (number_of_Z 1)
  /\ (forall v, r = inr v ->
        v = S754_zero false \/ v = S754_zero true \/ v = number_of_Z 1).
Proof.
  exact (@verdict_follows_leading_integer (scripted demo_stock)
           (Some (JStr (js "Will rates fall by December?")))
           (js "Rates fell in November.") None (O, []) (1%nat, [])
           (stock_verdict demo_stock) eq_refl).
Defined.

(** X21: A final line that is 0 or 1 and nothing else gives that verdict. *)
Lemma exact_final_line_is_the_verdict : forall pre ws,
  forallb isWhiteSpace ws = true ->
  parse_outcome (pre ++ LF :: js "0" ++ ws) = inr (number_of_Z 0)
  /\ parse_outcome (pre ++ LF :: js "1" ++ ws) = inr (number_of_Z 1).
Proof.
  intros pre ws Hws.
  split; rewrite parse_outcome_spec, last_line_of_trimmed;
    try reflexivity; try assumption; discriminate.
Qed.

(** C2 as stated fails: a final line that is not exactly 0 or 1 but begins
    with one of them yields a verdict, and an undecided answer resolves to 0
    without an error. *)
Lemma lenient_final_line_counterexample :
  let verdict_of content :=
    result (run (scripted (Stock [] [] content 7%Z []))
              (determineOutcome (Some (JStr (js "X"))) (js "facts")) None (O, [])) in
  last_line (split_lines (trim (js "It happened." ++ LF :: js "1 (true)")))
  = js "1 (true)"
  /\ verdict_of (js "It happened." ++ LF :: js "1 (true)") = inr (number_of_Z 1)
  /\ last_line (split_lines (trim (js "Unclear." ++ LF :: js "0 or 1")))
     = js "0 or 1"
  /\ verdict_of (js "Unclear." ++ LF :: js "0 or 1") = inr (number_of_Z 0).
Proof. vm_compute. repeat split. Qed.

(** ** Objects *)

Lemma str_eqb_refl : forall a, str_eqb a a = true.
Proof. induction a as [|x a IH]; simpl; [reflexivity|]. rewrite N.eqb_refl. exact IH. Qed.

Lemma str_eqb_eq : forall a b, str_eqb a b = true -> a = b.
Proof.
  induction a as [|x a IH]; intros [|y b] H; simpl in H; try discriminate.
  - reflexivity.
  - apply andb_true_iff in H as [Hxy Hab].
    apply N.eqb_eq in Hxy. f_equal; auto.
Qed.

Lemma obj_get_set_same : forall k v o, obj_get k (obj_set k v o) = Some v.
Proof.
  intros k v o. induction o as [|[k' v'] o IH]; simpl.
  - rewrite str_eqb_refl. reflexivity.
  - destruct (str_eqb k k') eqn:E; simpl; rewrite E; [reflexivity|exact IH].
Qed.

Lemma obj_get_set_other : forall k k' v o,
  str_eqb k k' = false -> obj_get k (obj_set k' v o) = obj_get k o.
Proof.
  intros k k' v o Hne. induction o as [|[k0 v0] o IH]; simpl.
  - rewrite Hne. reflexivity.
  - destruct (str_eqb k' k0) eqn:E; simpl.
    + apply str_eqb_eq in E. subst k0. rewrite Hne. reflexivity.
    + destruct (str_eqb k k0); [reflexivity|exact IH].
Qed.

(** ** The generator *)

(** The four fields are set behind the spread: whatever the model wrote
    under these names is overwritten. *)
Lemma with_policy_fields : forall prediction, policy_fields (with_policy prediction).
Proof.
  intro prediction. unfold policy_fields, with_policy.
  repeat split;
    repeat first [ rewrite obj_get_set_same; reflexivity
                 | rewrite obj_get_set_other by reflexivity ].
Qed.

(** C3, as the code has it: for every topic [generatePredictions] either
    returns a sequence, possibly empty, in which every item carries
    minVotes 1, maxVotes 1000, predictionType 0 and optionsCount 2, set by
    the code over whatever the model supplied, or fails with an error whose
    message starts with "Failed to generate predictions: ". It never returns
    an item without the four fields. *)
Theorem generated_predictions_carry_the_policy :
  forall (E : engine) (h : handler) (topic : value)
         (currentNonce : option Z) (w : world h),
    match result (run h (generatePredictions E topic) currentNonce w) with
    | inr predictions => Forall policy_fields predictions
    | inl error =>
        startsWith (js "Failed to generate predictions: ") (message error) = true
    end.
Proof.
  intros E h topic currentNonce w.
  unfold generatePredictions, getPerplexityData. simpl.
  destruct (respond h (PerplexityPost topic) w) as [[e|digest] w1]; simpl;
    [reflexivity|].
  destruct (respond h (GenerationCompletion topic digest) w1) as [[e|content] w2];
    simpl; [reflexivity|].
  destruct (JSON_parse content) as [[| | | |items|]|]; simpl; try reflexivity.
  apply Forall_forall. intros o Ho.
  apply in_map_iff in Ho as (item & <- & _). apply with_policy_fields.
Qed.

(** C3 as stated fails on "non-empty": the model may answer with the empty
    array, which is returned as it is, with no error. *)
Lemma empty_generation_counterexample :
  result (run (scripted (Stock (js "facts") (js "[]") [] 7%Z []))
            (generatePredictions v8 (Some (JStr (js "rates")))) None (O, []))
  = inr [].
Proof. vm_compute. reflexivity. Qed.

(** ** Running sequenced code *)

Lemma run_bind : forall h (A B : Type) (p : async A) (f : A -> async B) n w,
  run h (bind p f) n w
  = let o := run h p n w in
    match result o with
    | inl e => Outcome (inl e) (nonce_after o) (world_after o) (log o)
    | inr a =>
        let o' := run h (f a) (nonce_after o) (world_after o) in
        Outcome (result o') (nonce_after o') (world_after o') (log o ++ log o')
    end.
Proof.
  intros h A B p f. induction p as [a|e|k IH|v k IH|c k IH]; intros n w; simpl.
  - destruct (run h (f a) n w); reflexivity.
  - reflexivity.
  - apply IH.
  - apply IH.
  - destruct (respond h c w) as [r w']. rewrite IH. simpl.
    destruct (result (run h (k r) n w')); reflexivity.
Qed.

Lemma run_try_catch : forall h (A : Type) (p : async A) (f : exn -> async A) n w,
  run h (try_catch p f) n w
  = let o := run h p n w in
    match result o with
    | inr a => Outcome (inr a) (nonce_after o) (world_after o) (log o)
    | inl e =>
        let o' := run h (f e) (nonce_after o) (world_after o) in
        Outcome (result o') (nonce_after o') (world_after o') (log o ++ log o')
    end.
Proof.
  intros h A p f. induction p as [a|e|k IH|v k IH|c k IH]; intros n w; simpl.
  - reflexivity.
  - destruct (run h (f e) n w); reflexivity.
  - apply IH.
  - apply IH.
  - destruct (respond h c w) as [r w']. rewrite IH. simpl.
    destruct (result (run h (k r) n w')); reflexivity.
Qed.

(** ** The sequencer *)

Lemma run_createPredictionOnContract : forall h prediction currentNonce w,
  run h (createPredictionOnContract prediction) currentNonce w
  = submission h prediction currentNonce w.
Proof.
  intros h prediction currentNonce w.
  unfold createPredictionOnContract, submission, broadcast, caught, creation_failed.
  destruct currentNonce as [n|]; simpl.
  - destruct (respond h _ w) as [[e|t] w1]; simpl.
    + destruct (includes (js "nonce too low") (message e)); reflexivity.
    + destruct (respond h (TxWait t) w1) as [[e|b] w2]; simpl.
      * destruct (includes (js "nonce too low") (message e)); reflexivity.
      * reflexivity.
  - destruct (respond h GetTransactionCount w) as [[e|count] w0]; simpl.
    + destruct (includes (js "nonce too low") (message e)); reflexivity.
    + destruct (respond h _ w0) as [[e|t] w1]; simpl.
      * destruct (includes (js "nonce too low") (message e)); reflexivity.
      * destruct (respond h (TxWait t) w1) as [[e|b] w2]; simpl.
        -- destruct (includes (js "nonce too low") (message e)); reflexivity.
        -- reflexivity.
Qed.

Arguments createPredictionOnContract : simpl never.

(** With the nonce uninitialized, a submission starts by reading the
    transaction count. *)
Lemma uninitialized_nonce_is_fetched : forall h prediction w,
  exists r rest,
    log (run h (createPredictionOnContract prediction) None w)
    = Entry GetTransactionCount r :: rest.
Proof.
  intros h prediction w. rewrite run_createPredictionOnContract.
  unfold submission, broadcast, caught.
  destruct (respond h GetTransactionCount w) as [[e|count] w0].
  - eexists _, _. reflexivity.
  - destruct (respond h _ w0) as [[e|t] w1]; [eexists _, _; reflexivity|].
    destruct (respond h (TxWait t) w1) as [[e|b] w2]; eexists _, _; reflexivity.
Qed.

(** C4: a submission that fails ends on a rejected request, and the error
    thrown to the caller wraps the message of that rejection. Where the
    message holds "nonce too low", the nonce is reset to uninitialized and
    the next submission starts by reading the transaction count of the
    chain. Where it does not, the nonce is not reset: after a rejected
    contract write it is still the nonce that was attached, after a rejected
    wait it is that nonce incremented, and after a rejected read of the
    count it is what it was, uninitialized. *)
Theorem rejection_resets_the_nonce_only_when_stale :
  forall (h : handler) (prediction : object) (currentNonce : option Z)
         (w : world h) (error : exn),
    let o := run h (createPredictionOnContract prediction) currentNonce w in
    result o = inl error ->
    exists before c cause,
      log o = before ++ [Entry c (inl cause)]
      /\ error = creation_failed cause
      /\ (includes (js "nonce too low") (message cause) = true ->
          nonce_after o = None
          /\ forall next, exists r rest,
               log (run h (createPredictionOnContract next)
                      (nonce_after o) (world_after o))
               = Entry GetTransactionCount r :: rest)
      /\ (includes (js "nonce too low") (message cause) = false ->
          match c with
          | GetTransactionCount => currentNonce = None /\ nonce_after o = None
          | ContractSend _ _ attached =>
              attached = Nonce (nonce_after o) /\ nonce_after o <> None
          | TxWait _ =>
              exists n, sent_overrides before = [Nonce (Some n)]
                        /\ nonce_after o = Some (n + 1)%Z
          | _ => False
          end).
Proof.
  intros h prediction currentNonce w error o Hfail. subst o.
  rewrite run_createPredictionOnContract in *.
  assert (Hnext : forall w', forall next, exists r rest,
             log (run h (createPredictionOnContract next) None w')
             = Entry GetTransactionCount r :: rest)
    by (intros; apply uninitialized_nonce_is_fetched).
  unfold submission, broadcast, caught in *.
  destruct currentNonce as [n|].
  - destruct (respond h _ w) as [[e|t] w1] eqn:E1.
    + exists [], (ContractSend createPrediction (createPrediction_args prediction)
                    (Nonce (Some n))), e.
      simpl in Hfail. simpl. injection Hfail as <-.
      split; [reflexivity|]. split; [reflexivity|].
      split; intro Hs; rewrite Hs; [split; [reflexivity|apply Hnext]|]. split; [reflexivity|cbv iota; discriminate].
    + destruct (respond h (TxWait t) w1) as [[e|b] w2] eqn:E2; [|discriminate].
      exists [Entry (ContractSend createPrediction (createPrediction_args prediction)
                       (Nonce (Some n))) (inr t)], (TxWait t), e.
      simpl in Hfail. simpl. injection Hfail as <-.
      split; [reflexivity|]. split; [reflexivity|].
      split; intro Hs; rewrite Hs; [split; [reflexivity|apply Hnext]|]. exists n. split; reflexivity.
  - destruct (respond h GetTransactionCount w) as [[e|count] w0] eqn:E0.
    + exists [], GetTransactionCount, e.
      simpl in Hfail. simpl. injection Hfail as <-.
      split; [reflexivity|]. split; [reflexivity|].
      split; intro Hs; rewrite Hs; [split; [reflexivity|apply Hnext]|auto].
    + destruct (respond h _ w0) as [[e|t] w1] eqn:E1.
      * exists [Entry GetTransactionCount (inr count)],
          (ContractSend createPrediction (createPrediction_args prediction)
             (Nonce (Some count))), e.
        simpl in Hfail. simpl. injection Hfail as <-.
        split; [reflexivity|]. split; [reflexivity|].
      split; intro Hs; rewrite Hs; [split; [reflexivity|apply Hnext]|]. split; [reflexivity|cbv iota; discriminate].
      * destruct (respond h (TxWait t) w1) as [[e|b] w2] eqn:E2; [|discriminate].
        exists [Entry GetTransactionCount (inr count);
                Entry (ContractSend createPrediction (createPrediction_args prediction)
                         (Nonce (Some count))) (inr t)], (TxWait t), e.
        simpl in Hfail. simpl. injection Hfail as <-.
        split; [reflexivity|]. split; [reflexivity|].
        split; intro Hs; rewrite Hs; [split; [reflexivity|apply Hnext]|]. exists count. split; reflexivity.
Qed.

Lemma rejection_resets_the_nonce_only_when_stale_witness :
  let h := scripted demo_stock in
  let prediction := with_policy (JObj [(js "description", JStr (js "X"))]) in
  let o := run h (createPredictionOnContract prediction) (Some 7%Z)
             (O, [Some (js "nonce too low")]) in
  exists before c cause,
    log o = before ++ [Entry c (inl cause)]
    /\ creation_failed (Error (js "nonce too low")) = creation_failed cause
    /\ (includes (js "nonce too low") (message cause) = true ->
        nonce_after o = None
        /\ forall next, exists r rest,
             log (run h (createPredictionOnContract next)
                    (nonce_after o) (world_after o))
             = Entry GetTransactionCount r :: rest)
    /\ (includes (js "nonce too low") (message cause) = false ->
        match c with
        | GetTransactionCount => Some 7%Z = None /\ nonce_after o = None
        | ContractSend _ _ attached =>
            attached = Nonce (nonce_after o) /\ nonce_after o <> None
        | TxWait _ =>
            exists n, sent_overrides before = [Nonce (Some n)]
                      /\ nonce_after o = Some (n + 1)%Z
        | _ => False
        end).
Proof.
  intros h prediction o.
  apply (@rejection_resets_the_nonce_only_when_stale h prediction (Some 7%Z)
           (O, [Some (js "nonce too low")])
           (creation_failed (Error (js "nonce too low")))).
  reflexivity.
Defined.

(** ** The creation loop *)

Lemma run_create_loop_cons : forall h prediction rest created currentNonce w,
  run h (create_loop (prediction :: rest) created) currentNonce w
  = let o1 := run h (createPredictionOnContract prediction) currentNonce w in
    let o2 := run h (create_loop rest (created ++ [annotate prediction (result o1)]))
                (nonce_after o1) (world_after o1) in
    Outcome (result o2) (nonce_after o2) (world_after o2) (log o1 ++ log o2).
Proof.
  intros h prediction rest created currentNonce w.
  cbn [create_loop]. rewrite run_bind, run_try_catch, run_bind.
  destruct (run h (createPredictionOnContract prediction) currentNonce w)
    as [[e|txHash] n1 w1 l1]; simpl; rewrite ?app_nil_r; reflexivity.
Qed.

Lemma sent_overrides_app : forall l1 l2,
  sent_overrides (l1 ++ l2) = sent_overrides l1 ++ sent_overrides l2.
Proof.
  induction l1 as [|e l1 IH]; intro l2; simpl; [reflexivity|].
  destruct (e_call e); rewrite IH; reflexivity.
Qed.

(** What holds of every entry of a log holds of the entries of a part of
    it. *)
Ltac in_first H :=
  let e := fresh "e" in
  let He := fresh "He" in
  intros e He; apply H, in_or_app; left; exact He.

Ltac in_rest H :=
  let e := fresh "e" in
  let He := fresh "He" in
  intros e He; apply H, in_or_app; right; exact He.

(** A submission made with an initialized nonce: unless a request is
    refused or found stale, it attaches the nonce, reads no count and leaves
    the nonce incremented. *)
Lemma accepted_submission : forall h prediction n w,
  let o := run h (createPredictionOnContract prediction) (Some n) w in
  (forall e, In e (log o) -> stale e = false) ->
  (forall e, In e (log o) -> refused e = false) ->
  sent_overrides (log o) = [Nonce (Some n)]
  /\ filter is_count_read (log o) = []
  /\ nonce_after o = Some (n + 1)%Z.
Proof.
  intros h prediction n w o Hstale Hrefused. subst o.
  rewrite run_createPredictionOnContract in *.
  unfold submission, broadcast, caught in *.
  destruct (respond h _ w) as [[e|t] w1].
  - specialize (Hrefused _ (or_introl eq_refl)). discriminate.
  - destruct (respond h (TxWait t) w1) as [[e|b] w2]; simpl in *.
    + specialize (Hstale _ (or_intror (or_introl eq_refl))).
      unfold stale in Hstale. simpl in Hstale. rewrite Hstale. auto.
    + auto.
Qed.

(** The same from an uninitialized nonce: the count is read, once, and its
    value is the nonce attached. *)
Lemma first_submission : forall h prediction w,
  let o := run h (createPredictionOnContract prediction) None w in
  (forall e, In e (log o) -> stale e = false) ->
  (forall e, In e (log o) -> refused e = false) ->
  exists base w',
    respond h GetTransactionCount w = (inr base, w')
    /\ sent_overrides (log o) = [Nonce (Some base)]
    /\ filter is_count_read (log o) = [Entry GetTransactionCount (inr base)]
    /\ nonce_after o = Some (base + 1)%Z.
Proof.
  intros h prediction w o Hstale Hrefused. subst o.
  rewrite run_createPredictionOnContract in *.
  unfold submission, broadcast, caught in *.
  destruct (respond h GetTransactionCount w) as [[e|base] w0].
  - specialize (Hrefused _ (or_introl eq_refl)). discriminate.
  - exists base, w0. split; [reflexivity|].
    destruct (respond h _ w0) as [[e|t] w1].
    + specialize (Hrefused _ (or_intror (or_introl eq_refl))). discriminate.
    + destruct (respond h (TxWait t) w1) as [[e|b] w2]; simpl in *.
      * specialize (Hstale _ (or_intror (or_intror (or_introl eq_refl)))).
        unfold stale in Hstale. simpl in Hstale. rewrite Hstale. auto.
      * auto.
Qed.

Lemma consecutive_cons : forall base count,
  consecutive base (S count) = Nonce (Some base) :: consecutive (base + 1) count.
Proof.
  intros base count. unfold consecutive. simpl.
  rewrite Z.add_0_r. f_equal. rewrite <- seq_shift, map_map.
  apply map_ext. intro i. do 2 f_equal. lia.
Qed.

Lemma loop_from_initialized : forall h predictions created n w,
  let o := run h (create_loop predictions created) (Some n) w in
  (forall e, In e (log o) -> stale e = false) ->
  (forall e, In e (log o) -> refused e = false) ->
  sent_overrides (log o) = consecutive n (length predictions)
  /\ filter is_count_read (log o) = []
  /\ nonce_after o = Some (n + Z.of_nat (length predictions))%Z.
Proof.
  intros h predictions. induction predictions as [|p rest IH];
    intros created n w o Hstale Hrefused; subst o.
  - simpl. rewrite Z.add_0_r. auto.
  - rewrite run_create_loop_cons in *. cbv zeta in *. cbn [log nonce_after] in *.
    destruct (@accepted_submission h p n w) as (Hs & Hc & Hn).
    + in_first Hstale.
    + in_first Hrefused.
    + rewrite Hn in *.
      destruct (IH (created ++ [annotate p (result
                   (run h (createPredictionOnContract p) (Some n) w))])
                  (n + 1)%Z
                  (world_after (run h (createPredictionOnContract p) (Some n) w)))
        as (Hs' & Hc' & Hn').
      * in_rest Hstale.
      * in_rest Hrefused.
      * rewrite sent_overrides_app, filter_app, Hs, Hc, Hs', Hc', Hn'.
        cbn [length]. rewrite consecutive_cons.
        split; [reflexivity|]. split; [reflexivity|]. f_equal. lia.
Qed.

(** C1, as the code has it: in a run of N sequential submissions, starting
    with the nonce uninitialized, in which every read of the transaction
    count and every contract write is accepted and no rejection is a
    stale-sequence error, the count is read once, at first use, and the
    nonces attached to the N transactions are base, base+1, ..., base+N-1
    for the count base that was read; the nonce is base+N afterwards. *)
Theorem accepted_submissions_use_consecutive_nonces :
  forall (h : handler) (predictions : list object) (created : list json)
         (w : world h),
    predictions <> [] ->
    let o := run h (create_loop predictions created) None w in
    (forall e, In e (log o) -> stale e = false) ->
    (forall e, In e (log o) -> refused e = false) ->
    exists base w',
      respond h GetTransactionCount w = (inr base, w')
      /\ sent_overrides (log o) = consecutive base (length predictions)
      /\ filter is_count_read (log o) = [Entry GetTransactionCount (inr base)]
      /\ nonce_after o = Some (base + Z.of_nat (length predictions))%Z.
Proof.
  intros h predictions created w Hne o Hstale Hrefused. subst o.
  destruct predictions as [|p rest]; [congruence|].
  rewrite run_create_loop_cons in *. cbv zeta in *. cbn [log nonce_after] in *.
  destruct (@first_submission h p w) as (base & w' & Hread & Hs & Hc & Hn).
  - in_first Hstale.
  - in_first Hrefused.
  - exists base, w'. split; [exact Hread|].
    rewrite Hn in *.
    destruct (@loop_from_initialized h rest
                (created ++ [annotate p (result
                   (run h (createPredictionOnContract p) None w))])
                (base + 1)%Z
                (world_after (run h (createPredictionOnContract p) None w)))
      as (Hs' & Hc' & Hn').
    + in_rest Hstale.
    + in_rest Hrefused.
    + rewrite sent_overrides_app, filter_app, Hs, Hc, Hs', Hc', Hn'.
      cbn [length]. rewrite consecutive_cons.
      split; [reflexivity|]. split; [reflexivity|]. f_equal. lia.
Qed.

Lemma in_log_decide : forall (f : entry -> bool) (l : list entry),
  forallb (fun e => negb (f e)) l = true ->
  forall e, In e l -> f e = false.
Proof.
  intros f l H e He. rewrite forallb_forall in H.
  specialize (H e He). destruct (f e); [discriminate|reflexivity].
Qed.

Lemma accepted_submissions_use_consecutive_nonces_witness :
  let o := run (scripted demo_stock) (create_loop demo_predictions []) None (O, []) in
  exists base w',
    respond (scripted demo_stock) GetTransactionCount (O, []) = (inr base, w')
    /\ sent_overrides (log o) = consecutive base 3
    /\ filter is_count_read (log o) = [Entry GetTransactionCount (inr base)]
    /\ nonce_after o = Some (base + 3)%Z.
Proof.
  intro o.
  apply (@accepted_submissions_use_consecutive_nonces (scripted demo_stock)
           demo_predictions [] (O, [])).
  - discriminate.
  - apply in_log_decide. vm_compute. reflexivity.
  - apply in_log_decide. vm_compute. reflexivity.
Defined.

(** C1 as stated fails: with no stale-sequence error anywhere, a contract
    write rejected for another reason leaves the nonce where it was, and the
    next submission attaches the same nonce again. *)
Lemma rejected_write_counterexample :
  let o := run (scripted demo_stock) (create_loop demo_predictions []) None
             (O, [None; Some (js "execution reverted")]) in
  forallb (fun e => negb (stale e)) (log o) = true
  /\ sent_overrides (log o)
     = [Nonce (Some 7%Z); Nonce (Some 7%Z); Nonce (Some 8%Z)]
  /\ sent_overrides (log o) <> consecutive 7 3.
Proof. vm_compute. repeat split. discriminate. Qed.

(** ** Objects hold each key once *)

Lemma str_eqb_neq : forall a b, a <> b -> str_eqb a b = false.
Proof.
  intros a b H. destruct (str_eqb a b) eqn:E; [|reflexivity].
  apply str_eqb_eq in E. contradiction.
Qed.

Lemma obj_set_present : forall k v o,
  In k (map fst o) -> map fst (obj_set k v o) = map fst o.
Proof.
  intros k v o. induction o as [|[k' v'] o IH]; simpl; intro H; [contradiction|].
  destruct (str_eqb k k') eqn:E; simpl; [reflexivity|].
  destruct H as [H|H]; [subst k'; rewrite str_eqb_refl in E; discriminate|].
  rewrite IH by assumption. reflexivity.
Qed.

Lemma obj_set_fresh : forall k v o,
  ~ In k (map fst o) -> obj_set k v o = o ++ [(k, v)].
Proof.
  intros k v o. induction o as [|[k' v'] o IH]; simpl; intro H; [reflexivity|].
  rewrite str_eqb_neq by (intro; subst; auto).
  rewrite IH by auto. reflexivity.
Qed.

Lemma key_in_dec : forall (k : jsstring) (l : list jsstring), {In k l} + {~ In k l}.
Proof. intros k l. apply in_dec, list_eq_dec, N.eq_dec. Qed.

Lemma obj_set_well_formed : forall k v o,
  well_formed o -> well_formed (obj_set k v o).
Proof.
  unfold well_formed. intros k v o H.
  destruct (key_in_dec k (map fst o)) as [Hin|Hout].
  - rewrite obj_set_present by assumption. exact H.
  - rewrite obj_set_fresh by assumption. rewrite map_app. simpl.
    apply NoDup_app; [assumption|repeat constructor; auto|].
    intros a Ha [<-|[]]. contradiction.
Qed.

Lemma fold_obj_set_fresh : forall l acc,
  well_formed (acc ++ l) ->
  fold_left (fun o kv => obj_set (fst kv) (snd kv) o) l acc = acc ++ l.
Proof.
  induction l as [|[k v] l IH]; intros acc H; simpl.
  - rewrite app_nil_r. reflexivity.
  - assert (Hout : ~ In k (map fst acc)).
    { unfold well_formed in H. rewrite map_app in H. simpl in H.
      apply NoDup_remove_2 in H. intro Hin. apply H, in_or_app. left. exact Hin. }
    rewrite obj_set_fresh by assumption.
    rewrite IH; rewrite <- app_assoc; [reflexivity|exact H].
Qed.

(** Spreading a well-formed object copies it as it is. *)
Lemma spread_object : forall o, well_formed o -> spread (JObj o) = o.
Proof. intros o H. unfold spread. simpl. apply fold_obj_set_fresh. exact H. Qed.

Lemma fold_obj_set_well_formed : forall l acc,
  well_formed acc ->
  well_formed (fold_left (fun o kv => obj_set (fst kv) (snd kv) o) l acc).
Proof.
  induction l as [|[k v] l IH]; intros acc H; simpl; [exact H|].
  apply IH, obj_set_well_formed, H.
Qed.

Lemma with_policy_well_formed : forall prediction, well_formed (with_policy prediction).
Proof.
  intro prediction. unfold with_policy.
  repeat apply obj_set_well_formed.
  apply fold_obj_set_well_formed. constructor.
Qed.

Lemma annotate_well_formed : forall prediction r,
  well_formed prediction -> annotate prediction r = annotated prediction r.
Proof.
  intros prediction r H. unfold annotate, annotated.
  rewrite spread_object by assumption. reflexivity.
Qed.

(** ** The creation flow *)

Lemma submissions_length : forall h predictions currentNonce w,
  length (submissions h predictions currentNonce w) = length predictions.
Proof.
  intros h predictions. induction predictions as [|p rest IH]; intros n w; simpl;
    [reflexivity|]. rewrite IH. reflexivity.
Qed.

Lemma run_create_loop_result : forall h predictions created currentNonce w,
  result (run h (create_loop predictions created) currentNonce w)
  = inr (created
         ++ map (fun pr => annotate (fst pr) (snd pr))
              (combine predictions (submissions h predictions currentNonce w))).
Proof.
  intros h predictions. induction predictions as [|p rest IH]; intros created n w.
  - simpl. rewrite app_nil_r. reflexivity.
  - rewrite run_create_loop_cons. cbv zeta. cbn [result].
    rewrite IH. cbn [submissions combine map fst snd].
    rewrite <- app_assoc. reflexivity.
Qed.

Lemma run_generatePredictions_well_formed :
  forall E h topic currentNonce w predictions,
    result (run h (generatePredictions E topic) currentNonce w) = inr predictions ->
    Forall well_formed predictions.
Proof.
  intros E h topic currentNonce w predictions.
  unfold generatePredictions, getPerplexityData. simpl.
  destruct (respond h (PerplexityPost topic) w) as [[e|digest] w1]; simpl;
    [discriminate|].
  destruct (respond h (GenerationCompletion topic digest) w1) as [[e|content] w2];
    simpl; [discriminate|].
  destruct (JSON_parse content) as [[| | | |items|]|]; simpl; try discriminate.
  intro H. injection H as <-.
  apply Forall_forall. intros o Ho.
  apply in_map_iff in Ho as (item & <- & _). apply with_policy_well_formed.
Qed.

Lemma map_annotate_well_formed : forall predictions outcomes,
  Forall well_formed predictions ->
  map (fun pr => annotate (fst pr) (snd pr)) (combine predictions outcomes)
  = map (fun pr => annotated (fst pr) (snd pr)) (combine predictions outcomes).
Proof.
  intros predictions outcomes H. revert outcomes.
  induction H as [|p rest Hp Hrest IH]; intros [|r outcomes]; simpl; try reflexivity.
  rewrite annotate_well_formed by assumption. rewrite IH. reflexivity.
Qed.

(** C5: where generation succeeds with K predictions, the response of the
    creation request has status 200 and lists K items in the order of
    generation; the item of a prediction is that prediction with a
    transactionHash field where its submission succeeded and with an error
    field, the message of the failure, where it failed. A failed submission
    neither ends the loop nor fails the request. *)
Theorem creation_lists_every_prediction :
  forall (E : engine) (h : handler) (req_body : object)
         (currentNonce : option Z) (w : world h) (predictions : list object),
    truthy (obj_get (js "topic") req_body) = true ->
    let g := run h (generatePredictions E (obj_get (js "topic") req_body))
               currentNonce w in
    result g = inr predictions ->
    let outcomes := submissions h predictions (nonce_after g) (world_after g) in
    let items := map (fun pr => annotated (fst pr) (snd pr))
                   (combine predictions outcomes) in
    result (run h (post_generate_predictions E req_body) currentNonce w)
    = inr (Response 200 (JObj [(js "predictions", JArr items)]))
    /\ length outcomes = length predictions
    /\ length items = length predictions.
Proof.
  intros E h req_body currentNonce w predictions Htopic g Hg outcomes items.
  split; [|split].
  - unfold post_generate_predictions. rewrite Htopic. cbn [negb].
    rewrite run_try_catch, run_bind. cbv zeta. fold g. rewrite Hg.
    rewrite run_bind. cbv zeta. rewrite run_create_loop_result.
    cbn [result run app]. unfold items, outcomes.
    rewrite map_annotate_well_formed
      by (eapply run_generatePredictions_well_formed; exact Hg).
    reflexivity.
  - apply submissions_length.
  - unfold items. rewrite length_map, length_combine.
    unfold outcomes. rewrite submissions_length. apply Nat.min_id.
Qed.


Lemma creation_lists_every_prediction_witness :
  let h := scripted demo_stock in
  let req_body := [(js "topic", JStr (js "rates"))] in
  let w := (O, [None; None; None; None; None; Some (js "execution reverted")]) in
  let g := run h (generatePredictions v8 (obj_get (js "topic") req_body)) None w in
  exists predictions,
    result g = inr predictions
    /\ let outcomes := submissions h predictions (nonce_after g) (world_after g) in
       let items := map (fun pr => annotated (fst pr) (snd pr))
                      (combine predictions outcomes) in
       result (run h (post_generate_predictions v8 req_body) None w)
       = inr (Response 200 (JObj [(js "predictions", JArr items)]))
       /\ length outcomes = length predictions
       /\ length items = length predictions.
Proof.
  intros h req_body w g.
  assert (Hg : result g = inr (map with_policy
                 match JSON_parse (stock_generation demo_stock) with
                 | Some (JArr items) => items
                 | _ => []
                 end)) by (vm_compute; reflexivity).
  eexists. split; [exact Hg|].
  apply (@creation_lists_every_prediction v8 h req_body None w _ eq_refl Hg).
Defined.

(** The case of three predictions of which the second submission fails:
    three items, the first and the third with a transactionHash and no
    error, the second with an error and no transactionHash. *)
Example creation_with_a_failed_submission :
  let h := scripted demo_stock in
  let w := (O, [None; None; None; None; None; Some (js "execution reverted")]) in
  match result (run h (post_generate_predictions v8 [(js "topic", JStr (js "rates"))])
                  None w) with
  | inr (Response 200 (JObj [(_, JArr [JObj i1; JObj i2; JObj i3])])) =>
      obj_get (js "transactionHash") i1 = Some (JStr (js "0x3"))
      /\ obj_get (js "error") i1 = None
      /\ obj_get (js "transactionHash") i2 = None
      /\ obj_get (js "error") i2
         = Some (JStr (js "Failed to create prediction on contract: execution reverted"))
      /\ obj_get (js "transactionHash") i3 = Some (JStr (js "0x6"))
      /\ obj_get (js "error") i3 = None
  | _ => False
  end.
Proof. vm_compute. repeat split. Qed.

(** ** The finalization flow *)

(** Whatever happens, the finalization handler neither reads nor writes the
    nonce, reads no transaction count, and attaches no nonce to its contract
    write. *)
Lemma finalization_leaves_the_nonce : forall h predictionId currentNonce w,
  let o := run h (post_finalize_prediction predictionId) currentNonce w in
  nonce_after o = currentNonce
  /\ filter is_count_read (log o) = []
  /\ Forall (fun attached => attached = NoOverrides) (sent_overrides (log o)).
Proof.
  intros h predictionId currentNonce w.
  unfold post_finalize_prediction, determineOutcome, getPerplexityData. simpl.
  destruct (respond h (GetPredictionDetails predictionId) w) as [[e|description] w1];
    simpl; [auto|].
  destruct (respond h (PerplexityPost _) w1) as [[e|digest] w2]; simpl; [auto|].
  destruct (respond h (OutcomeCompletion _ digest) w2) as [[e|content] w3];
    simpl; [auto|].
  destruct (parse_outcome content) as [e|verdict]; simpl; [auto|].
  destruct (respond h (ContractSend _ _ _) w3) as [[e|t] w4]; simpl; [auto|].
  destruct (respond h (TxWait t) w4) as [[e|b] w5]; simpl; auto.
Qed.

(** The part of the round trip that holds: in a finalization in which every
    stage succeeds and the adjudicator returns the verdict v, the handler
    makes one contract write, [finalizePrediction] with the prediction id
    and exactly v as arguments, and the response carries the message, the
    verdict v and the hash of that transaction. The write is made on the
    contract itself, with no nonce attached, and [currentNonce] is neither
    read nor changed. *)
Theorem finalization_submits_the_verdict :
  forall (h : handler) (predictionId : jsstring) (currentNonce : option Z)
         (w w1 w2 w3 w4 w5 : world h)
         (description digest content : jsstring) (verdict : number)
         (t : tx) (block : Z),
    respond h (GetPredictionDetails predictionId) w = (inr description, w1) ->
    respond h (PerplexityPost (Some (JStr description))) w1 = (inr digest, w2) ->
    respond h (OutcomeCompletion (Some (JStr description)) digest) w2
    = (inr content, w3) ->
    parse_outcome content = inr verdict ->
    respond h (ContractSend finalizePrediction
                 [Some (JStr predictionId); Some (JNum verdict)] NoOverrides) w3
    = (inr t, w4) ->
    respond h (TxWait t) w4 = (inr block, w5) ->
    let o := run h (post_finalize_prediction predictionId) currentNonce w in
    result o
    = inr (Response 200
             (JObj [(js "message",
                     JStr (js "Prediction " ++ predictionId
                           ++ js " finalized successfully"));
                    (js "outcome", JNum verdict);
                    (js "transactionHash", JStr (hash t))]))
    /\ (strict_eq verdict (number_of_Z 0) = true
        \/ strict_eq verdict (number_of_Z 1) = true)
    /\ filter (fun e => match e_call e with
                        | ContractSend _ _ _ => true
                        | _ => false
                        end) (log o)
       = [Entry (ContractSend finalizePrediction
                   [Some (JStr predictionId); Some (JNum verdict)] NoOverrides)
            (inr t)]
    /\ filter is_count_read (log o) = []
    /\ nonce_after o = currentNonce.
Proof.
  intros h predictionId currentNonce w w1 w2 w3 w4 w5 description digest content
    verdict t block H1 H2 H3 Hv H4 H5 o.
  assert (Hverdict : strict_eq verdict (number_of_Z 0) = true
                     \/ strict_eq verdict (number_of_Z 1) = true).
  { rewrite parse_outcome_spec in Hv.
    destruct (leading_integer (last_line (split_lines (trim content))))
      as [[[|] [|[p|p|]]]|]; inversion Hv; auto. }
  subst o. unfold post_finalize_prediction, determineOutcome, getPerplexityData.
  simpl. rewrite H1. simpl. rewrite H2. simpl. rewrite H3. simpl.
  rewrite Hv. simpl. rewrite H4. simpl. rewrite H5. simpl.
  repeat split. exact Hverdict.
Qed.

Lemma finalization_submits_the_verdict_witness :
  let h := scripted demo_stock in
  let o := run h (post_finalize_prediction (js "42")) (Some 7%Z) (O, []) in
  result o
  = inr (Response 200
           (JObj [(js "message", JStr (js "Prediction 42 finalized successfully"));
                  (js "outcome", JNum (number_of_Z 1));
                  (js "transactionHash", JStr (js "0x3"))]))
  /\ (strict_eq (number_of_Z 1) (number_of_Z 0) = true
      \/ strict_eq (number_of_Z 1) (number_of_Z 1) = true)
  /\ filter (fun e => match e_call e with
                      | ContractSend _ _ _ => true
                      | _ => false
                      end) (log o)
     = [Entry (ContractSend finalizePrediction
                 [Some (JStr (js "42")); Some (JNum (number_of_Z 1))] NoOverrides)
          (inr (Tx (js "0x3")))]
  /\ filter is_count_read (log o) = []
  /\ nonce_after o = Some 7%Z.
Proof.
  intros h o.
  exact (@finalization_submits_the_verdict h (js "42") (Some 7%Z)
           (O, []) (1%nat, []) (2%nat, []) (3%nat, []) (4%nat, []) (5%nat, [])
           (stock_description demo_stock) (stock_digest demo_stock)
           (stock_verdict demo_stock) (number_of_Z 1) (Tx (js "0x3")) 4%Z
           eq_refl eq_refl eq_refl eq_refl eq_refl eq_refl).
Defined.

(** The finalize write does not go through the nonce handling of the
    sequencer. With the nonce uninitialized, a successful finalization reads
    no transaction count, attaches no nonce and leaves the nonce
    uninitialized; with the nonce at 7, it leaves it at 7 although a
    transaction of the signer went out. *)
Lemma finalization_bypasses_the_sequencer_counterexample :
  let h := scripted demo_stock in
  let fresh := run h (post_finalize_prediction (js "42")) None (O, []) in
  let warm := run h (post_finalize_prediction (js "42")) (Some 7%Z) (O, []) in
  sent_overrides (log fresh) = [NoOverrides]
  /\ filter is_count_read (log fresh) = []
  /\ nonce_after fresh = None
  /\ sent_overrides (log warm) = [NoOverrides]
  /\ nonce_after warm = Some 7%Z.
Proof. vm_compute. repeat split. Qed.

(** After a finalization, whatever its outcome, the next creation attaches
    the nonce that was held before the finalization and reads no
    transaction count: the write of the finalization is invisible to the
    sequencer. *)
Lemma creation_after_finalization_attaches_the_old_nonce :
  forall h predictionId n w next,
    let f := run h (post_finalize_prediction predictionId) (Some n) w in
    let o := run h (createPredictionOnContract next) (nonce_after f) (world_after f) in
    sent_overrides (log o) = [Nonce (Some n)]
    /\ filter is_count_read (log o) = [].
Proof.
  intros h predictionId n w next f o.
  destruct (@finalization_leaves_the_nonce h predictionId (Some n) w) as (Hn & _ & _).
  fold f in Hn. subst o. rewrite Hn.
  rewrite run_createPredictionOnContract. unfold submission, broadcast, caught.
  destruct (respond h _ (world_after f)) as [[e|t] w1]; [split; reflexivity|].
  destruct (respond h (TxWait t) w1) as [[e|b] w2]; split; reflexivity.
Qed.

(** C8: the finalize write is not made through the nonce handling of the
    sequencer, and the sequencer is left out of step by it. A creation with
    the chain count at 7 attaches 7 and leaves the nonce at 8; a
    finalization that succeeds with verdict 1 then writes
    [finalizePrediction] with that verdict, with no nonce attached, and
    leaves the nonce at 8 although a transaction of the same signer went
    out; the next creation attaches 8 without reading the count. The
    verdict argument and the response are as the round trip says. *)
Theorem finalization_leaves_the_sequencer_out_of_step :
  let h := scripted demo_stock in
  let p1 := nth 0 demo_predictions [] in
  let p2 := nth 1 demo_predictions [] in
  let created := run h (createPredictionOnContract p1) None (O, []) in
  let finalized :=
    run h (post_finalize_prediction (js "42"))
      (nonce_after created) (world_after created) in
  let next :=
    run h (createPredictionOnContract p2)
      (nonce_after finalized) (world_after finalized) in
  sent_overrides (log created) = [Nonce (Some 7%Z)]
  /\ nonce_after created = Some 8%Z
  /\ result finalized
     = inr (Response 200
              (JObj [(js "message", JStr (js "Prediction 42 finalized successfully"));
                     (js "outcome", JNum (number_of_Z 1));
                     (js "transactionHash", JStr (js "0x6"))]))
  /\ filter is_write (log finalized)
     = [Entry (ContractSend finalizePrediction
                 [Some (JStr (js "42")); Some (JNum (number_of_Z 1))] NoOverrides)
          (inr (Tx (js "0x6")))]
  /\ filter is_count_read (log finalized) = []
  /\ nonce_after finalized = Some 8%Z
  /\ sent_overrides (log next) = [Nonce (Some 8%Z)]
  /\ filter is_count_read (log next) = [].
Proof. vm_compute. repeat split. Qed.

(** ** Submissions in flight at the same time *)

(** C6, as the code has it: there is no single-flight guard. A submission
    that finds the nonce uninitialized suspends on its own read of the
    transaction count and leaves the nonce uninitialized meanwhile, so every
    submission started before that read settles performs a read of its own;
    when its read settles, each sets the nonce to the count it read,
    whatever the nonce has become, and attaches that count. Only a
    submission that finds the nonce initialized performs no read and
    attaches the nonce it finds. *)
Theorem every_uninitialized_submission_reads_the_count :
  forall prediction : object,
    (exists k,
        advance (createPredictionOnContract prediction) None
        = (Pending GetTransactionCount k, None)
        /\ forall (count : Z) (meanwhile : option Z),
             exists k',
               advance (k (inr count)) meanwhile
               = (Pending (create_call prediction (Some count)) k', Some count))
    /\ (forall n : Z,
          exists k,
            advance (createPredictionOnContract prediction) (Some n)
            = (Pending (create_call prediction (Some n)) k, Some n)).
Proof.
  intro prediction. unfold createPredictionOnContract, create_call. split.
  - simpl. eexists. split; [reflexivity|].
    intros count meanwhile. simpl. eexists. reflexivity.
  - intro n. simpl. eexists. reflexivity.
Qed.

(** C6 as stated fails: two submissions started while the nonce is
    uninitialized both read the transaction count, and both attach the
    count they read, 7, to their transactions. *)
Lemma two_reads_counterexample :
  let h := scripted demo_stock in
  let p1 := nth 0 demo_predictions [] in
  let p2 := nth 1 demo_predictions [] in
  let start := LoopState None (O, []) [] [] in
  let both_started :=
    event_loop h start
      [Start (createPredictionOnContract p1); Start (createPredictionOnContract p2)] in
  let both_read := event_loop h both_started [Settle 0; Settle 1] in
  map (@awaited jsstring) (ls_tasks both_started)
  = [Some GetTransactionCount; Some GetTransactionCount]
  /\ ls_nonce both_started = None
  /\ map (fun ie => (fst ie, e_call (snd ie))) (ls_log both_read)
     = [(0%nat, GetTransactionCount); (1%nat, GetTransactionCount)]
  /\ map (@awaited jsstring) (ls_tasks both_read)
     = [Some (create_call p1 (Some 7%Z)); Some (create_call p2 (Some 7%Z))].
Proof. vm_compute. repeat split. Qed.

(** C7: when a contract write is accepted (the transaction and its hash
    are returned), the nonce is incremented at once, before the wait for the
    confirmation begins, whether the nonce was held already or was read from
    the chain for this submission. Nothing is held during that wait: a
    submission made meanwhile goes straight to its own contract write, with
    the incremented nonce, while the confirmation of the earlier one is
    still outstanding. *)
Theorem nonce_is_incremented_at_acceptance :
  forall (h : handler) (prediction other : object) (currentNonce : option Z)
         (n : Z) (w0 w w1 : world h) (t : tx),
    (currentNonce = Some n /\ w0 = w)
    \/ (currentNonce = None /\ respond h GetTransactionCount w0 = (inr n, w)) ->
    respond h (create_call prediction (Some n)) w = (inr t, w1) ->
    let accepted :=
      event_loop h (LoopState currentNonce w0 [] [])
        (Start (createPredictionOnContract prediction)
         :: match currentNonce with
            | Some _ => [Settle 0]
            | None => [Settle 0; Settle 0]
            end) in
    let meanwhile :=
      event_loop h accepted [Start (createPredictionOnContract other)] in
    map (@awaited jsstring) (ls_tasks accepted) = [Some (TxWait t)]
    /\ ls_nonce accepted = Some (n + 1)%Z
    /\ map (@awaited jsstring) (ls_tasks meanwhile)
       = [Some (TxWait t); Some (create_call other (Some (n + 1)%Z))]
    /\ filter (fun ie => match e_call (snd ie) with
                         | TxWait _ => true
                         | _ => false
                         end) (ls_log meanwhile) = [].
Proof.
  intros h prediction other currentNonce n w0 w w1 t Hstart Haccept
    accepted meanwhile.
  subst meanwhile accepted.
  unfold createPredictionOnContract, create_call in *.
  destruct Hstart as [[-> ->]|[-> Hread]]; simpl.
  - rewrite Haccept. simpl. repeat split.
  - rewrite Hread. simpl. rewrite Haccept. simpl. repeat split.
Qed.

Lemma nonce_is_incremented_at_acceptance_witness :
  let h := scripted demo_stock in
  let p1 := nth 0 demo_predictions [] in
  let p2 := nth 1 demo_predictions [] in
  let accepted :=
    event_loop h (LoopState None (O, []) [] [])
      [Start (createPredictionOnContract p1); Settle 0; Settle 0] in
  let meanwhile :=
    event_loop h accepted [Start (createPredictionOnContract p2)] in
  map (@awaited jsstring) (ls_tasks accepted) = [Some (TxWait (Tx (js "0x1")))]
  /\ ls_nonce accepted = Some (7 + 1)%Z
  /\ map (@awaited jsstring) (ls_tasks meanwhile)
     = [Some (TxWait (Tx (js "0x1"))); Some (create_call p2 (Some (7 + 1)%Z))]
  /\ filter (fun ie => match e_call (snd ie) with
                       | TxWait _ => true
                       | _ => false
                       end) (ls_log meanwhile) = [].
Proof.
  intros h p1 p2.
  exact (@nonce_is_incremented_at_acceptance h p1 p2 None 7%Z
           (O, []) (1%nat, []) (2%nat, []) (Tx (js "0x1"))
           (or_intror (conj eq_refl eq_refl)) eq_refl).
Defined.

(** The sequencer returns the hash to its caller only when the wait for the
    confirmation has settled, and the creation flow awaits each submission
    before it makes the next: within one request the second contract write
    is made after the first confirmation. *)
Example creation_flow_awaits_each_confirmation :
  let h := scripted demo_stock in
  let start := LoopState None (O, []) [] [] in
  let first_accepted :=
    event_loop h start
      [Start (post_generate_predictions v8 [(js "topic", JStr (js "rates"))]);
       Settle 0; Settle 0; Settle 0; Settle 0] in
  let confirmed := event_loop h first_accepted [Settle 0] in
  map (@awaited response) (ls_tasks first_accepted) = [Some (TxWait (Tx (js "0x3")))]
  /\ ls_nonce first_accepted = Some 8%Z
  /\ sent_overrides (map snd (ls_log first_accepted)) = [Nonce (Some 7%Z)]
  /\ match map (@awaited response) (ls_tasks confirmed) with
     | [Some (ContractSend createPrediction _ attached)] => attached = Nonce (Some 8%Z)
     | _ => False
     end.
Proof. vm_compute. repeat split. Qed.

(** ** The two ways of running agree

    Running a piece of code to its end is advancing it to its next await,
    settling the request, and going on. *)
Lemma run_advance : forall h (R : Type) (p : async R) currentNonce w,
  run h p currentNonce w
  = match advance p currentNonce with
    | (Finished r, n) => Outcome r n w []
    | (Pending c k, n) =>
        let '(r, w') := respond h c w in
        let o := run h (k r) n w' in
        Outcome (result o) (nonce_after o) (world_after o) (Entry c r :: log o)
    end.
Proof.
  intros h R p. induction p as [a|e|k IH|v k IH|c k IH]; intros n w; simpl;
    try reflexivity; apply IH.
Qed.

(** ** More about the generator *)

(** [getPerplexityData] and [generatePredictions] never touch the nonce and
    never go to the chain. *)
Lemma run_generatePredictions_off_chain : forall E h topic currentNonce w,
  let o := run h (generatePredictions E topic) currentNonce w in
  nonce_after o = currentNonce /\ chain_free (log o).
Proof.
  intros E h topic currentNonce w.
  unfold generatePredictions, getPerplexityData, chain_free. simpl.
  destruct (respond h (PerplexityPost topic) w) as [[e|digest] w1]; simpl.
  - split; [reflexivity|]. intros x [<-|[]]. reflexivity.
  - destruct (respond h (GenerationCompletion topic digest) w1) as [[e|content] w2];
      simpl.
    + split; [reflexivity|]. intros x [<-|[<-|[]]]; reflexivity.
    + destruct (JSON_parse content) as [[| | | |items|]|]; simpl;
        (split; [reflexivity|]; intros x [<-|[<-|[]]]; reflexivity).
Qed.

(** X1: Where the retrieval fails, the generator asks the model nothing: the one
    request made is the rejected retrieval, and the error thrown wraps the
    message twice, once by [getPerplexityData] and once by
    [generatePredictions]. *)
Theorem generation_stops_at_a_failed_retrieval :
  forall (E : engine) (h : handler) (topic : value) (currentNonce : option Z)
         (w w' : world h) (cause : exn),
    respond h (PerplexityPost topic) w = (inl cause, w') ->
    run h (generatePredictions E topic) currentNonce w
    = Outcome
        (inl (Error (js "Failed to generate predictions: "
                     ++ js "Failed to fetch data from Perplexity: "
                     ++ message cause)))
        currentNonce w' [Entry (PerplexityPost topic) (inl cause)].
Proof.
  intros E h topic currentNonce w w' cause Hreply.
  unfold generatePredictions, getPerplexityData. simpl.
  rewrite Hreply. reflexivity.
Qed.

Lemma generation_stops_at_a_failed_retrieval_witness :
  run (scripted demo_stock) (generatePredictions v8 (Some (JStr (js "rates"))))
    None (O, [Some (js "Request failed with status code 401")])
  = Outcome
      (inl (Error (js "Failed to generate predictions: "
                   ++ js "Failed to fetch data from Perplexity: "
                   ++ js "Request failed with status code 401")))
      None (1%nat, []) [Entry (PerplexityPost (Some (JStr (js "rates"))))
                          (inl (Error (js "Request failed with status code 401")))].
Proof.
  apply (@generation_stops_at_a_failed_retrieval v8 (scripted demo_stock)
           (Some (JStr (js "rates"))) None
           (O, [Some (js "Request failed with status code 401")]) (1%nat, [])
           (Error (js "Request failed with status code 401"))).
  reflexivity.
Defined.

(** X2: The generator succeeds only on a completion that is the JSON text of an
    array, after exactly two requests, the retrieval and the completion that
    is given its digest; it returns one prediction per element of the array,
    in order, whatever the elements are. *)
Theorem generation_returns_one_prediction_per_element :
  forall (E : engine) (h : handler) (topic : value) (currentNonce : option Z)
         (w : world h) (predictions : list object),
    let o := run h (generatePredictions E topic) currentNonce w in
    result o = inr predictions ->
    exists digest content items w1,
      respond h (PerplexityPost topic) w = (inr digest, w1)
      /\ respond h (GenerationCompletion topic digest) w1
         = (inr content, world_after o)
      /\ JSON_parse content = Some (JArr items)
      /\ predictions = map with_policy items
      /\ length predictions = length items
      /\ log o = [Entry (PerplexityPost topic) (inr digest);
                  Entry (GenerationCompletion topic digest) (inr content)].
Proof.
  intros E h topic currentNonce w predictions o. subst o.
  unfold generatePredictions, getPerplexityData. simpl.
  destruct (respond h (PerplexityPost topic) w) as [[e|digest] w1]; simpl;
    [discriminate|].
  destruct (respond h (GenerationCompletion topic digest) w1) as [[e|content] w2] eqn:E2;
    simpl; [discriminate|].
  destruct (JSON_parse content) as [[| | | |items|]|] eqn:Ep; simpl; try discriminate.
  intro H. injection H as <-.
  exists digest, content, items, w1. rewrite length_map. repeat split; assumption.
Qed.

Lemma generation_returns_one_prediction_per_element_witness :
  let o := run (scripted demo_stock) (generatePredictions v8 (Some (JStr (js "rates"))))
             None (O, []) in
  exists digest content items w1,
    respond (scripted demo_stock) (PerplexityPost (Some (JStr (js "rates")))) (O, [])
    = (inr digest, w1)
    /\ respond (scripted demo_stock)
         (GenerationCompletion (Some (JStr (js "rates"))) digest) w1
       = (inr content, world_after o)
    /\ JSON_parse content = Some (JArr items)
    /\ match result o with
       | inr predictions => predictions
       | inl _ => []
       end = map with_policy items
    /\ length match result o with
              | inr predictions => predictions
              | inl _ => []
              end = length items
    /\ log o = [Entry (PerplexityPost (Some (JStr (js "rates")))) (inr digest);
                Entry (GenerationCompletion (Some (JStr (js "rates"))) digest)
                  (inr content)].
Proof.
  intro o.
  assert (Ho : result o = inr match result o with
                              | inr predictions => predictions
                              | inl _ => []
                              end) by (vm_compute; reflexivity).
  exact (@generation_returns_one_prediction_per_element v8 (scripted demo_stock)
           (Some (JStr (js "rates"))) None (O, []) _ Ho).
Defined.

Lemma with_policy_other : forall item k,
  is_policy_key k = false ->
  obj_get k (with_policy item) = obj_get k (spread item).
Proof.
  intros item k Hk. unfold is_policy_key in Hk.
  apply orb_false_iff in Hk as [Hk H4]. apply orb_false_iff in Hk as [Hk H3].
  apply orb_false_iff in Hk as [H1 H2].
  unfold with_policy. rewrite !obj_get_set_other by assumption. reflexivity.
Qed.

(** X4: What the model wrote under other names than the four policy fields is
    kept: a normalized prediction holds, under every other key, what the
    spread of the model's element holds, which for an object is the value of
    that key. *)
Theorem policy_keeps_the_other_fields :
  forall (item : json) (k : jsstring),
    is_policy_key k = false ->
    obj_get k (with_policy item) = obj_get k (spread item)
    /\ (forall o, item = JObj o -> well_formed o ->
          obj_get k (with_policy item) = obj_get k o).
Proof.
  intros item k Hk.
  pose proof (with_policy_other item k Hk) as Hget.
  split; [exact Hget|].
  intros o -> Hwf. rewrite Hget, spread_object by assumption. reflexivity.
Qed.

Lemma policy_keeps_the_other_fields_witness :
  obj_get (js "description")
    (with_policy (JObj [(js "description", JStr (js "X")); (js "minVotes", num 9)]))
  = obj_get (js "description")
      (spread (JObj [(js "description", JStr (js "X")); (js "minVotes", num 9)]))
  /\ (forall o,
        JObj [(js "description", JStr (js "X")); (js "minVotes", num 9)] = JObj o ->
        well_formed o ->
        obj_get (js "description")
          (with_policy (JObj [(js "description", JStr (js "X")); (js "minVotes", num 9)]))
        = obj_get (js "description") o).
Proof.
  apply (@policy_keeps_the_other_fields
           (JObj [(js "description", JStr (js "X")); (js "minVotes", num 9)])
           (js "description")).
  reflexivity.
Defined.

(** X5: The arguments of the contract write of a generated prediction: the
    description, duration and tags the model wrote, and 1, 1000, 0 and 2 for
    minVotes, maxVotes, predictionType and optionsCount, whatever the model
    wrote for these. *)
Theorem contract_arguments_carry_the_policy :
  forall item : json,
    createPrediction_args (with_policy item)
    = [ obj_get (js "description") (spread item);
        obj_get (js "duration") (spread item);
        Some (num 1); Some (num 1000); Some (num 0); Some (num 2);
        obj_get (js "tags") (spread item) ].
Proof.
  intro item. unfold createPrediction_args.
  destruct (with_policy_fields item) as (H1 & H2 & H3 & H4).
  rewrite H1, H2, H3, H4.
  rewrite !with_policy_other by reflexivity.
  reflexivity.
Qed.

(** Every error of the generator is wrapped, every prediction normalized. *)
Lemma generated_predictions_carry_the_policy_aux :
  forall E h topic currentNonce w,
    match result (run h (generatePredictions E topic) currentNonce w) with
    | inr predictions => Forall policy_fields predictions
    | inl error =>
        startsWith (js "Failed to generate predictions: ") (message error) = true
    end.
Proof.
  intros E h topic currentNonce w.
  unfold generatePredictions, getPerplexityData. simpl.
  destruct (respond h (PerplexityPost topic) w) as [[e|digest] w1]; simpl;
    [reflexivity|].
  destruct (respond h (GenerationCompletion topic digest) w1) as [[e|content] w2];
    simpl; [reflexivity|].
  destruct (JSON_parse content) as [[| | | |items|]|]; simpl; try reflexivity.
  apply Forall_forall. intros o Ho.
  apply in_map_iff in Ho as (item & <- & _). apply with_policy_fields.
Qed.

(** ** More about the request handlers *)

(** Going through the entries of a log that is written out. *)
Ltac each_entry :=
  repeat match goal with
         | H : False |- _ => destruct H
         | H : @eq entry _ _ \/ _ |- _ => destruct H as [<-|H]
         | H : In _ [] |- _ => destruct H
         | H : In _ (_ :: _) |- _ => destruct H as [<-|H]
         end.

(** X6: Where generation fails, the creation request is answered with status
    500 and the message of that failure, after the requests of the
    generation alone: nothing is asked of the chain and the nonce is
    untouched. *)
Theorem failed_generation_fails_the_creation_request :
  forall (E : engine) (h : handler) (req_body : object)
         (currentNonce : option Z) (w : world h) (error : exn),
    truthy (obj_get (js "topic") req_body) = true ->
    let g := run h (generatePredictions E (obj_get (js "topic") req_body))
               currentNonce w in
    result g = inl error ->
    run h (post_generate_predictions E req_body) currentNonce w
    = Outcome (inr (Response 500 (JObj [(js "error", JStr (message error))])))
        currentNonce (world_after g) (log g)
    /\ chain_free (log g)
    /\ startsWith (js "Failed to generate predictions: ") (message error) = true.
Proof.
  intros E h req_body currentNonce w error Htopic g Hg.
  destruct (run_generatePredictions_off_chain E h (obj_get (js "topic") req_body)
              currentNonce w) as [Hn Hfree].
  fold g in Hn, Hfree.
  split; [|split; [exact Hfree|]].
  - unfold post_generate_predictions. rewrite Htopic. cbn [negb].
    rewrite run_try_catch, run_bind. cbv zeta. fold g.
    clear Hfree. clearbody g. destruct g as [r n1 w1 l1]. simpl in Hg, Hn.
    subst r n1. simpl. rewrite app_nil_r. reflexivity.
  - pose proof (generated_predictions_carry_the_policy_aux E h
                  (obj_get (js "topic") req_body) currentNonce w) as H.
    fold g in H. rewrite Hg in H. exact H.
Qed.

Lemma failed_generation_fails_the_creation_request_witness :
  let h := scripted demo_stock in
  let req_body := [(js "topic", JStr (js "rates"))] in
  let w := (O, [None; Some (js "Rate limit reached")]) in
  let g := run h (generatePredictions v8 (obj_get (js "topic") req_body)) (Some 7%Z) w in
  run h (post_generate_predictions v8 req_body) (Some 7%Z) w
  = Outcome
      (inr (Response 500
              (JObj [(js "error",
                      JStr (js "Failed to generate predictions: Rate limit reached"))])))
      (Some 7%Z) (world_after g) (log g)
  /\ chain_free (log g)
  /\ startsWith (js "Failed to generate predictions: ")
       (js "Failed to generate predictions: Rate limit reached") = true.
Proof.
  intros h req_body w g.
  apply (@failed_generation_fails_the_creation_request v8 h req_body (Some 7%Z) w
           (Error (js "Failed to generate predictions: Rate limit reached")));
    reflexivity.
Defined.

(** X7: No error escapes a handler: whatever the body of the request and
    whatever the collaborators answer, each of the four POST handlers ends
    with a response, of status 200, 400 or 500 (200 or 500 for the
    finalization, which has no guard). *)
Theorem handlers_always_respond :
  forall (E : engine) (h : handler) (req_body : object) (predictionId : jsstring)
         (currentNonce : option Z) (w : world h),
    (exists r, result (run h (post_generate_predictions E req_body) currentNonce w)
               = inr r
               /\ (status r = 200 \/ status r = 400 \/ status r = 500)%Z)
    /\ (exists r, result (run h (post_test_generate_predictions E req_body)
                            currentNonce w) = inr r
                  /\ (status r = 200 \/ status r = 400 \/ status r = 500)%Z)
    /\ (exists r, result (run h (post_test_finalize_prediction req_body)
                            currentNonce w) = inr r
                  /\ (status r = 200 \/ status r = 400 \/ status r = 500)%Z)
    /\ (exists r, result (run h (post_finalize_prediction predictionId)
                            currentNonce w) = inr r
                  /\ (status r = 200 \/ status r = 500)%Z).
Proof.
  intros E h req_body predictionId currentNonce w. repeat split.
  - unfold post_generate_predictions.
    destruct (truthy (obj_get (js "topic") req_body)); cbn [negb];
      [|eexists; split; [reflexivity|simpl; auto]].
    rewrite run_try_catch, run_bind. cbv zeta.
    destruct (run h (generatePredictions E (obj_get (js "topic") req_body))
                currentNonce w) as [[e|predictions] n1 w1 l1]; cbn [result].
    + eexists. split; [reflexivity|simpl; auto].
    + rewrite run_bind. cbv zeta. cbn [nonce_after world_after].
      rewrite run_create_loop_result. cbn.
      eexists. split; [reflexivity|simpl; auto].
  - unfold post_test_generate_predictions.
    destruct (truthy (obj_get (js "topic") req_body)); cbn [negb];
      [|eexists; split; [reflexivity|simpl; auto]].
    rewrite run_try_catch, run_bind. cbv zeta.
    destruct (run h (generatePredictions E (obj_get (js "topic") req_body))
                currentNonce w) as [[e|predictions] n1 w1 l1]; cbn;
      eexists; (split; [reflexivity|simpl; auto]).
  - unfold post_test_finalize_prediction, determineOutcome, getPerplexityData.
    destruct (truthy (obj_get (js "description") req_body)); cbn [negb];
      [|eexists; split; [reflexivity|simpl; auto]].
    simpl.
    destruct (respond h (PerplexityPost _) w) as [[e|digest] w1]; simpl;
      [eexists; split; [reflexivity|simpl; auto]|].
    destruct (respond h (OutcomeCompletion _ digest) w1) as [[e|content] w2]; simpl;
      [eexists; split; [reflexivity|simpl; auto]|].
    destruct (parse_outcome content) as [e|verdict]; simpl;
      eexists; (split; [reflexivity|simpl; auto]).
  - unfold post_finalize_prediction, determineOutcome, getPerplexityData. simpl.
    destruct (respond h (GetPredictionDetails predictionId) w) as [[e|description] w1];
      simpl; [eexists; split; [reflexivity|simpl; auto]|].
    destruct (respond h (PerplexityPost _) w1) as [[e|digest] w2]; simpl;
      [eexists; split; [reflexivity|simpl; auto]|].
    destruct (respond h (OutcomeCompletion _ digest) w2) as [[e|content] w3]; simpl;
      [eexists; split; [reflexivity|simpl; auto]|].
    destruct (parse_outcome content) as [e|verdict]; simpl;
      [eexists; split; [reflexivity|simpl; auto]|].
    destruct (respond h (ContractSend _ _ _) w3) as [[e|t] w4]; simpl;
      [eexists; split; [reflexivity|simpl; auto]|].
    destruct (respond h (TxWait t) w4) as [[e|b] w5]; simpl;
      eexists; (split; [reflexivity|simpl; auto]).
Qed.

(** X8: The dry run of the generation asks nothing of the chain and leaves the
    nonce alone, whatever happens; past the guard its requests are those of
    the generator, and its response lists the normalized predictions as
    they are, with no transactionHash and no error field added, or carries
    the message of the failure with status 500. *)
Theorem dry_run_generation_stays_off_chain :
  forall (E : engine) (h : handler) (req_body : object)
         (currentNonce : option Z) (w : world h),
    let topic := obj_get (js "topic") req_body in
    let g := run h (generatePredictions E topic) currentNonce w in
    let o := run h (post_test_generate_predictions E req_body) currentNonce w in
    nonce_after o = currentNonce
    /\ chain_free (log o)
    /\ log o = (if truthy topic then log g else [])
    /\ result o
       = inr (if truthy topic then
                match result g with
                | inr predictions =>
                    Response 200
                      (JObj [(js "predictions", JArr (map JObj predictions))])
                | inl error =>
                    Response 500 (JObj [(js "error", JStr (message error))])
                end
              else Response 400 (JObj [(js "error", JStr (js "Topic is required"))])).
Proof.
  intros E h req_body currentNonce w topic g o.
  destruct (run_generatePredictions_off_chain E h topic currentNonce w) as [Hn Hfree].
  fold g in Hn, Hfree. subst o. unfold post_test_generate_predictions.
  fold topic. destruct (truthy topic); cbn [negb].
  - rewrite run_try_catch, run_bind. cbv zeta. fold g.
    clearbody g. destruct g as [[e|predictions] n1 w1 l1]; simpl in *; subst n1;
      rewrite ?app_nil_r; repeat split; assumption.
  - simpl. repeat split. intros e [].
Qed.

(** X9: A dry-run finalization whose body has no description, or a falsy one,
    is answered with status 400 and an error field, and no request is
    made. *)
Theorem dry_run_finalization_requires_a_description :
  forall (h : handler) (req_body : object) (currentNonce : option Z) (w : world h),
    truthy (obj_get (js "description") req_body) = false ->
    run h (post_test_finalize_prediction req_body) currentNonce w
    = Outcome
        (inr (Response 400
                (JObj [(js "error", JStr (js "Prediction description is required"))])))
        currentNonce w [].
Proof.
  intros h req_body currentNonce w Hfalsy.
  unfold post_test_finalize_prediction. rewrite Hfalsy. reflexivity.
Qed.

Lemma dry_run_finalization_requires_a_description_witness :
  run (scripted demo_stock)
    (post_test_finalize_prediction [(js "description", JStr [])]) None (O, [])
  = Outcome
      (inr (Response 400
              (JObj [(js "error", JStr (js "Prediction description is required"))])))
      None (O, []) [].
Proof.
  apply (@dry_run_finalization_requires_a_description (scripted demo_stock)
           [(js "description", JStr [])] None (O, [])).
  reflexivity.
Defined.

(** X10: The dry run of the finalization asks nothing of the chain and leaves
    the nonce alone, whatever happens. Where it answers with status 200,
    the retrieval was asked about the description of the body and the model
    about that description and the digest retrieved, in this order and
    nothing else, and the response carries the description, a verdict that
    is 0 or 1, and the digest. *)
Theorem dry_run_finalization_stays_off_chain :
  forall (h : handler) (req_body : object) (currentNonce : option Z) (w : world h),
    let o := run h (post_test_finalize_prediction req_body) currentNonce w in
    nonce_after o = currentNonce
    /\ chain_free (log o)
    /\ (forall r, result o = inr r -> status r = 200%Z ->
          exists d digest content verdict,
            obj_get (js "description") req_body = Some d
            /\ log o = [Entry (PerplexityPost (Some d)) (inr digest);
                        Entry (OutcomeCompletion (Some d) digest) (inr content)]
            /\ parse_outcome content = inr verdict
            /\ (strict_eq verdict (number_of_Z 0) = true
                \/ strict_eq verdict (number_of_Z 1) = true)
            /\ body r
               = JObj [(js "message",
                        JStr (js "Test prediction finalized successfully"));
                       (js "description", d);
                       (js "outcome", JNum verdict);
                       (js "currentData", JStr digest)]).
Proof.
  intros h req_body currentNonce w o. subst o.
  unfold post_test_finalize_prediction, determineOutcome, getPerplexityData,
    chain_free.
  destruct (obj_get (js "description") req_body) as [d|] eqn:Hd;
    [|simpl; repeat split; [intros e []|intros r H; injection H as <-; discriminate]].
  destruct (truthy (Some d)); cbn [negb];
    [|simpl; repeat split; [intros e []|intros r H; injection H as <-; discriminate]].
  simpl.
  destruct (respond h (PerplexityPost (Some d)) w) as [[e|digest] w1]; simpl.
  { repeat split; [intros x Hx; each_entry; reflexivity
                  |intros r H; injection H as <-; discriminate]. }
  destruct (respond h (OutcomeCompletion (Some d) digest) w1) as [[e|content] w2];
    simpl.
  { repeat split; [intros x Hx; each_entry; reflexivity
                  |intros r H; injection H as <-; discriminate]. }
  destruct (parse_outcome content) as [e|verdict] eqn:Hv; simpl.
  { repeat split; [intros x Hx; each_entry; reflexivity
                  |intros r H; injection H as <-; discriminate]. }
  repeat split; [intros x Hx; each_entry; reflexivity|].
  intros r H _. injection H as <-.
  exists d, digest, content, verdict. repeat split; try assumption.
  rewrite parse_outcome_spec in Hv.
  destruct (leading_integer (last_line (split_lines (trim content))))
    as [[[|] [|[p|p|]]]|]; inversion Hv; auto.
Qed.

Lemma dry_run_finalization_stays_off_chain_witness :
  let req_body := [(js "description", JStr (js "Will rates fall by December?"))] in
  let o := run (scripted demo_stock) (post_test_finalize_prediction req_body)
             (Some 7%Z) (O, []) in
  nonce_after o = Some 7%Z
  /\ chain_free (log o)
  /\ exists d digest content verdict,
       obj_get (js "description") req_body = Some d
       /\ log o = [Entry (PerplexityPost (Some d)) (inr digest);
                   Entry (OutcomeCompletion (Some d) digest) (inr content)]
       /\ parse_outcome content = inr verdict
       /\ (strict_eq verdict (number_of_Z 0) = true
           \/ strict_eq verdict (number_of_Z 1) = true)
       /\ match result o with
          | inr r => body r
          | inl _ => JNull
          end
          = JObj [(js "message",
                   JStr (js "Test prediction finalized successfully"));
                  (js "description", d);
                  (js "outcome", JNum verdict);
                  (js "currentData", JStr digest)].
Proof.
  intros req_body o.
  destruct (@dry_run_finalization_stays_off_chain (scripted demo_stock) req_body
              (Some 7%Z) (O, [])) as (Hn & Hfree & Hok).
  split; [exact Hn|]. split; [exact Hfree|].
  exact (Hok match result o with
             | inr r => r
             | inl _ => Response 0 JNull
             end eq_refl eq_refl).
Defined.

(** The four parts of the statement below, in one case of the run. *)
Ltac finalization_case :=
  split; [simpl; lia|];
  split; [intros ? Hx Hw; each_entry; try discriminate;
          match goal with
          | v : number, H : _ \/ _ |- _ => exists v; split; [reflexivity|exact H]
          end|];
  split; [intros ? ? Hx Hr; each_entry; try discriminate;
          (split; [first [ exists []; reflexivity
                         | eexists [_]; reflexivity
                         | eexists [_; _]; reflexivity
                         | eexists [_; _; _]; reflexivity
                         | eexists [_; _; _; _]; reflexivity ]
                  |eexists; reflexivity])|];
  intros ? Hres Hstatus; injection Hres as <-;
  first [ discriminate
        | split; [reflexivity|]; split; [reflexivity|];
          intros ? Hx; each_entry; reflexivity ].

(** X11: The finalization writes to the contract only behind a valid verdict,
    and stops at the first failure. Whatever the collaborators answer: it
    makes at most one contract write, and that write is [finalizePrediction]
    with the id of the request and a verdict that is 0 or 1; a request that
    is rejected is the last one made, and the response then has status 500;
    a response of status 200 follows exactly five fulfilled requests, one of
    them the write. *)
Theorem finalization_writes_only_a_valid_verdict :
  forall (h : handler) (predictionId : jsstring) (currentNonce : option Z)
         (w : world h),
    let o := run h (post_finalize_prediction predictionId) currentNonce w in
    (length (filter is_write (log o)) <= 1)%nat
    /\ (forall e, In e (log o) -> is_write e = true ->
          exists verdict,
            e_call e = ContractSend finalizePrediction
                         [Some (JStr predictionId); Some (JNum verdict)] NoOverrides
            /\ (strict_eq verdict (number_of_Z 0) = true
                \/ strict_eq verdict (number_of_Z 1) = true))
    /\ (forall e error, In e (log o) -> rejection e = Some error ->
          (exists before, log o = before ++ [e])
          /\ exists msg, result o = inr (Response 500 (JObj [(js "error", JStr msg)])))
    /\ (forall r, result o = inr r -> status r = 200%Z ->
          length (log o) = 5%nat
          /\ length (filter is_write (log o)) = 1%nat
          /\ forall e, In e (log o) -> rejection e = None).
Proof.
  intros h predictionId currentNonce w o. subst o.
  unfold post_finalize_prediction, determineOutcome, getPerplexityData. simpl.
  destruct (respond h (GetPredictionDetails predictionId) w) as [[e|description] w1];
    simpl; [finalization_case|].
  destruct (respond h (PerplexityPost _) w1) as [[e|digest] w2]; simpl;
    [finalization_case|].
  destruct (respond h (OutcomeCompletion _ digest) w2) as [[e|content] w3]; simpl;
    [finalization_case|].
  destruct (parse_outcome content) as [e|verdict] eqn:Hv; simpl;
    [finalization_case|].
  assert (Hverdict : strict_eq verdict (number_of_Z 0) = true
                     \/ strict_eq verdict (number_of_Z 1) = true).
  { rewrite parse_outcome_spec in Hv.
    destruct (leading_integer (last_line (split_lines (trim content))))
      as [[[|] [|[p|p|]]]|]; inversion Hv; auto. }
  destruct (respond h (ContractSend _ _ _) w3) as [[e|t] w4]; simpl;
    [finalization_case|].
  destruct (respond h (TxWait t) w4) as [[e|b] w5]; simpl; finalization_case.
Qed.

(** ** More about the sequencer *)

(** X12: A submission returns a hash only behind a confirmation: where it
    succeeds, its last two requests are the contract write, accepted with a
    transaction, and the wait for that transaction, fulfilled; the hash
    returned is the hash of that transaction, the nonce attached is the one
    held, or the count read just before where none was held, and the nonce
    left behind is the next one. *)
Theorem hash_is_returned_after_confirmation :
  forall (h : handler) (prediction : object) (currentNonce : option Z)
         (w : world h) (txHash : jsstring),
    let o := run h (createPredictionOnContract prediction) currentNonce w in
    result o = inr txHash ->
    exists n t block before,
      log o = before ++ [Entry (create_call prediction (Some n)) (inr t);
                         Entry (TxWait t) (inr block)]
      /\ txHash = hash t
      /\ nonce_after o = Some (n + 1)%Z
      /\ ((currentNonce = Some n /\ before = [])
          \/ (currentNonce = None
              /\ before = [Entry GetTransactionCount (inr n)])).
Proof.
  intros h prediction currentNonce w txHash o Hok. subst o.
  rewrite run_createPredictionOnContract in *.
  unfold submission, broadcast, caught, create_call in *.
  destruct currentNonce as [n|].
  - destruct (respond h _ w) as [[e|t] w1]; [discriminate|].
    destruct (respond h (TxWait t) w1) as [[e|b] w2]; [discriminate|].
    simpl in *. injection Hok as <-.
    exists n, t, b, [].
    split; [reflexivity|]. split; [reflexivity|]. split; [reflexivity|].
    left. split; reflexivity.
  - destruct (respond h GetTransactionCount w) as [[e|n] w0]; [discriminate|].
    destruct (respond h _ w0) as [[e|t] w1]; [discriminate|].
    destruct (respond h (TxWait t) w1) as [[e|b] w2]; [discriminate|].
    simpl in *. injection Hok as <-.
    exists n, t, b, [Entry GetTransactionCount (inr n)].
    split; [reflexivity|]. split; [reflexivity|]. split; [reflexivity|].
    right. split; reflexivity.
Qed.

Lemma hash_is_returned_after_confirmation_witness :
  let h := scripted demo_stock in
  let prediction := nth 0 demo_predictions [] in
  let o := run h (createPredictionOnContract prediction) None (O, []) in
  exists n t block before,
    log o = before ++ [Entry (create_call prediction (Some n)) (inr t);
                       Entry (TxWait t) (inr block)]
    /\ js "0x1" = hash t
    /\ nonce_after o = Some (n + 1)%Z
    /\ ((None = Some n /\ before = [])
        \/ (@None Z = None /\ before = [Entry GetTransactionCount (inr n)])).
Proof.
  intros h prediction o.
  apply (@hash_is_returned_after_confirmation h prediction None (O, []) (js "0x1")).
  reflexivity.
Defined.

(** X13: At first use the nonce is the count the chain reports: a submission
    that finds the nonce uninitialized attaches exactly the count it has
    just read; where that read is rejected it makes no contract write, the
    nonce stays uninitialized and the wrapped error is thrown. *)
Theorem first_use_attaches_the_count_read :
  forall (h : handler) (prediction : object) (w : world h),
    let o := run h (createPredictionOnContract prediction) None w in
    match respond h GetTransactionCount w with
    | (inr count, _) =>
        sent_overrides (log o) = [Nonce (Some count)]
        /\ (nonce_after o = None \/ nonce_after o = Some count
            \/ nonce_after o = Some (count + 1)%Z)
    | (inl error, w') =>
        o = Outcome (inl (creation_failed error)) None w'
              [Entry GetTransactionCount (inl error)]
    end.
Proof.
  intros h prediction w o. subst o.
  rewrite run_createPredictionOnContract.
  unfold submission, broadcast, caught.
  destruct (respond h GetTransactionCount w) as [[e|count] w0].
  - destruct (includes (js "nonce too low") (message e)); reflexivity.
  - destruct (respond h _ w0) as [[e|t] w1]; simpl.
    + destruct (includes (js "nonce too low") (message e)); auto.
    + destruct (respond h (TxWait t) w1) as [[e|b] w2]; simpl; auto.
      destruct (includes (js "nonce too low") (message e)); auto.
Qed.

Lemma replay_nonces_app : forall l1 l2 n,
  replay_nonces n (l1 ++ l2)
  = replay_nonces n l1
    ++ replay_nonces (n + Z.of_nat (length (accepted_writes l1)))%Z l2.
Proof.
  induction l1 as [|e l1 IH]; intros l2 n; simpl.
  - rewrite Z.add_0_r. reflexivity.
  - unfold accepted_writes in *. simpl.
    destruct (is_write e); simpl.
    + destruct (rejection e); simpl; rewrite IH; [reflexivity|].
      do 3 f_equal. lia.
    + apply IH.
Qed.

Lemma accepted_writes_app : forall l1 l2,
  accepted_writes (l1 ++ l2) = accepted_writes l1 ++ accepted_writes l2.
Proof. intros. unfold accepted_writes. apply filter_app. Qed.

(** One submission from an initialized nonce, with no stale rejection. *)
Lemma submission_replays : forall h prediction n w,
  let o := run h (createPredictionOnContract prediction) (Some n) w in
  (forall e, In e (log o) -> stale e = false) ->
  sent_overrides (log o) = replay_nonces n (log o)
  /\ nonce_after o = Some (n + Z.of_nat (length (accepted_writes (log o))))%Z
  /\ filter is_count_read (log o) = [].
Proof.
  intros h prediction n w o Hstale. subst o.
  rewrite run_createPredictionOnContract in *.
  unfold submission, broadcast, caught in *.
  destruct (respond h _ w) as [[e|t] w1].
  - specialize (Hstale _ (or_introl eq_refl)).
    unfold stale in Hstale. simpl in *. rewrite Hstale.
    rewrite Z.add_0_r. auto.
  - destruct (respond h (TxWait t) w1) as [[e|b] w2]; simpl in *.
    + specialize (Hstale _ (or_intror (or_introl eq_refl))).
      unfold stale in Hstale. simpl in Hstale. rewrite Hstale. auto.
    + auto.
Qed.

(** X14: The nonce follows the accepted writes: in a run of sequential
    submissions that starts with the nonce at [n] and meets no
    stale-sequence error, no transaction count is read, each contract write
    attaches [n] plus the number of writes accepted before it, so that a
    write attaches the nonce of the one before exactly when that one was
    rejected, and the nonce ends at [n] plus the number of accepted
    writes. *)
Theorem nonce_counts_the_accepted_writes :
  forall (h : handler) (predictions : list object) (created : list json)
         (n : Z) (w : world h),
    let o := run h (create_loop predictions created) (Some n) w in
    (forall e, In e (log o) -> stale e = false) ->
    sent_overrides (log o) = replay_nonces n (log o)
    /\ nonce_after o = Some (n + Z.of_nat (length (accepted_writes (log o))))%Z
    /\ filter is_count_read (log o) = []
    /\ length (sent_overrides (log o)) = length predictions.
Proof.
  intros h predictions. induction predictions as [|p rest IH];
    intros created n w o Hstale; subst o.
  - simpl. rewrite Z.add_0_r. auto.
  - rewrite run_create_loop_cons in *. cbv zeta in *. cbn [log nonce_after] in *.
    destruct (@submission_replays h p n w) as (Hs & Hn & Hc); [in_first Hstale|].
    assert (Hone : length (sent_overrides
                             (log (run h (createPredictionOnContract p) (Some n) w)))
                   = 1%nat).
    { rewrite run_createPredictionOnContract.
      unfold submission, broadcast, caught.
      destruct (respond h _ w) as [[e|t] w1]; [reflexivity|].
      destruct (respond h (TxWait t) w1) as [[e|b] w2]; reflexivity. }
    rewrite Hn in *.
    destruct (IH (created ++ [annotate p (result
                   (run h (createPredictionOnContract p) (Some n) w))])
                (n + Z.of_nat (length (accepted_writes
                   (log (run h (createPredictionOnContract p) (Some n) w)))))%Z
                (world_after (run h (createPredictionOnContract p) (Some n) w)))
      as (Hs' & Hn' & Hc' & Hl'); [in_rest Hstale|].
    split; [|split; [|split]].
    + rewrite sent_overrides_app, replay_nonces_app, Hs', <- Hs. reflexivity.
    + rewrite Hn', accepted_writes_app, length_app. f_equal. lia.
    + rewrite filter_app, Hc, Hc'. reflexivity.
    + rewrite sent_overrides_app, length_app, Hone, Hl'. reflexivity.
Qed.

Lemma nonce_counts_the_accepted_writes_witness :
  let o := run (scripted demo_stock) (create_loop demo_predictions []) (Some 7%Z)
             (O, [Some (js "execution reverted"); None; None;
                  Some (js "insufficient funds")]) in
  sent_overrides (log o) = replay_nonces 7 (log o)
  /\ nonce_after o = Some (7 + Z.of_nat (length (accepted_writes (log o))))%Z
  /\ filter is_count_read (log o) = []
  /\ length (sent_overrides (log o)) = length demo_predictions.
Proof.
  intro o.
  apply (@nonce_counts_the_accepted_writes (scripted demo_stock)
           demo_predictions [] 7%Z
           (O, [Some (js "execution reverted"); None; None;
                Some (js "insufficient funds")])).
  apply in_log_decide. vm_compute. reflexivity.
Defined.

(** *** Stale-sequence errors are found by their text *)

Lemma startsWith_app : forall needle rest, startsWith needle (needle ++ rest) = true.
Proof.
  induction needle as [|c needle IH]; intro rest; simpl; [reflexivity|].
  rewrite N.eqb_refl. apply IH.
Qed.

Lemma startsWith_inv : forall needle s,
  startsWith needle s = true -> exists rest, s = needle ++ rest.
Proof.
  induction needle as [|c needle IH]; intros s H.
  - exists s. reflexivity.
  - destruct s as [|x s]; simpl in H; [discriminate|].
    apply andb_true_iff in H as [Hc Hs]. apply N.eqb_eq in Hc. subst x.
    destruct (IH s Hs) as [rest ->]. exists rest. reflexivity.
Qed.

Lemma includes_startsWith : forall needle s,
  includes needle s = startsWith needle s
                      || match s with
                         | _ :: s' => includes needle s'
                         | [] => false
                         end.
Proof. intros needle [|c s]; reflexivity. Qed.

(** [includes] finds the needle wherever it stands, and only there. *)
Lemma includes_iff : forall needle s,
  includes needle s = true <-> exists before rest, s = before ++ needle ++ rest.
Proof.
  intros needle s. split.
  - induction s as [|c s IH]; intro H; rewrite includes_startsWith in H;
      apply orb_true_iff in H as [H|H].
    + apply startsWith_inv in H as [rest ->]. exists [], rest. reflexivity.
    + discriminate.
    + apply startsWith_inv in H as [rest ->]. exists [], rest. reflexivity.
    + destruct (IH H) as (before & rest & ->). exists (c :: before), rest. reflexivity.
  - intros (before & rest & ->). induction before as [|c before IH].
    + simpl app. rewrite includes_startsWith, startsWith_app. reflexivity.
    + simpl app. rewrite includes_startsWith, IH. apply orb_true_r.
Qed.

(** X15: A rejected contract write resets the nonce exactly when the words
    "nonce too low" stand somewhere in the message of the rejection, in this
    spelling, whatever stands around them; otherwise the nonce attached is
    kept. *)
Theorem rejected_write_resets_on_the_words :
  forall (h : handler) (prediction : object) (n : Z) (w w1 : world h) (error : exn),
    respond h (create_call prediction (Some n)) w = (inl error, w1) ->
    let o := run h (createPredictionOnContract prediction) (Some n) w in
    (nonce_after o = None
     <-> exists before rest, message error = before ++ js "nonce too low" ++ rest)
    /\ (nonce_after o = None \/ nonce_after o = Some n)
    /\ result o = inl (creation_failed error).
Proof.
  intros h prediction n w w1 error Hreject o. subst o.
  pose proof (includes_iff (js "nonce too low") (message error)) as Hi.
  rewrite run_createPredictionOnContract.
  unfold submission, broadcast, caught, create_call in *. rewrite Hreject.
  cbn [nonce_after result].
  destruct (includes (js "nonce too low") (message error)).
  - split; [|split; [left|]; reflexivity].
    split; intro; [apply Hi|]; reflexivity.
  - split; [|split; [right|]; reflexivity].
    split; intro H; [discriminate|]. apply Hi in H. discriminate.
Qed.

Lemma rejected_write_resets_on_the_words_witness :
  let h := scripted demo_stock in
  let prediction := nth 0 demo_predictions [] in
  let error := Error (js "nonce has already been used (error: nonce too low, code: -32000)") in
  let o := run h (createPredictionOnContract prediction) (Some 7%Z)
             (O, [Some (message error)]) in
  (nonce_after o = None
   <-> exists before rest, message error = before ++ js "nonce too low" ++ rest)
  /\ (nonce_after o = None \/ nonce_after o = Some 7%Z)
  /\ result o = inl (creation_failed error).
Proof.
  intros h prediction error.
  apply (@rejected_write_resets_on_the_words h prediction 7%Z
           (O, [Some (message error)]) (1%nat, []) error).
  reflexivity.
Defined.

(** *** Submissions started together *)

(** X17: Two submissions that start while the nonce is at [n], the second before
    the write of the first is accepted, attach the same nonce [n]: the
    nonce moves only at acceptance. Where the chain accepts both writes, the
    nonce ends at [n + 2] although [n + 1] was never attached. *)
Theorem submissions_started_together_attach_the_same_nonce :
  forall (h : handler) (p1 p2 : object) (n : Z) (w w1 w2 : world h) (t1 t2 : tx),
    respond h (create_call p1 (Some n)) w = (inr t1, w1) ->
    respond h (create_call p2 (Some n)) w1 = (inr t2, w2) ->
    let started :=
      event_loop h (LoopState (Some n) w [] [])
        [Start (createPredictionOnContract p1);
         Start (createPredictionOnContract p2)] in
    let accepted := event_loop h started [Settle 0; Settle 1] in
    map (@awaited jsstring) (ls_tasks started)
    = [Some (create_call p1 (Some n)); Some (create_call p2 (Some n))]
    /\ ls_nonce started = Some n
    /\ sent_overrides (map snd (ls_log accepted))
       = [Nonce (Some n); Nonce (Some n)]
    /\ ls_nonce accepted = Some (n + 2)%Z.
Proof.
  intros h p1 p2 n w w1 w2 t1 t2 H1 H2 started accepted.
  subst accepted started.
  unfold createPredictionOnContract, create_call in *. simpl.
  rewrite H1. simpl. rewrite H2. simpl.
  repeat split. f_equal. lia.
Qed.

Lemma submissions_started_together_attach_the_same_nonce_witness :
  let h := scripted demo_stock in
  let p1 := nth 0 demo_predictions [] in
  let p2 := nth 1 demo_predictions [] in
  let started :=
    event_loop h (LoopState (Some 7%Z) (O, []) [] [])
      [Start (createPredictionOnContract p1);
       Start (createPredictionOnContract p2)] in
  let accepted := event_loop h started [Settle 0; Settle 1] in
  map (@awaited jsstring) (ls_tasks started)
  = [Some (create_call p1 (Some 7%Z)); Some (create_call p2 (Some 7%Z))]
  /\ ls_nonce started = Some 7%Z
  /\ sent_overrides (map snd (ls_log accepted))
     = [Nonce (Some 7%Z); Nonce (Some 7%Z)]
  /\ ls_nonce accepted = Some (7 + 2)%Z.
Proof.
  intros h p1 p2.
  exact (@submissions_started_together_attach_the_same_nonce h p1 p2 7%Z
           (O, []) (1%nat, []) (2%nat, []) (Tx (js "0x0")) (Tx (js "0x1"))
           eq_refl eq_refl).
Defined.

(** X18: A reset that comes while a write is in flight is not seen by that
    write: when a second submission is rejected as stale and resets the
    nonce, and the write of the first is accepted afterwards, the increment
    at that acceptance finds the nonce uninitialized and leaves it at 1,
    not at a count of the chain. *)
Theorem reset_during_a_write_leaves_the_nonce_at_one :
  forall (h : handler) (p1 p2 : object) (n : Z) (w w1 w2 : world h)
         (error : exn) (t : tx),
    respond h (create_call p2 (Some n)) w = (inl error, w1) ->
    includes (js "nonce too low") (message error) = true ->
    respond h (create_call p1 (Some n)) w1 = (inr t, w2) ->
    let rejected :=
      event_loop h (LoopState (Some n) w [] [])
        [Start (createPredictionOnContract p1);
         Start (createPredictionOnContract p2);
         Settle 1] in
    let accepted := event_loop h rejected [Settle 0] in
    ls_nonce rejected = None
    /\ map (@awaited jsstring) (ls_tasks rejected)
       = [Some (create_call p1 (Some n)); None]
    /\ ls_nonce accepted = Some 1%Z
    /\ map (@awaited jsstring) (ls_tasks accepted) = [Some (TxWait t); None].
Proof.
  intros h p1 p2 n w w1 w2 error t Hreject Hstale Haccept rejected accepted.
  subst accepted rejected.
  unfold createPredictionOnContract, create_call in *. simpl.
  rewrite Hreject. simpl. rewrite Hstale. simpl.
  rewrite Haccept. simpl. repeat split.
Qed.

Lemma reset_during_a_write_leaves_the_nonce_at_one_witness :
  let h := scripted demo_stock in
  let p1 := nth 0 demo_predictions [] in
  let p2 := nth 1 demo_predictions [] in
  let rejected :=
    event_loop h (LoopState (Some 7%Z) (O, [Some (js "nonce too low")]) [] [])
      [Start (createPredictionOnContract p1);
       Start (createPredictionOnContract p2);
       Settle 1] in
  let accepted := event_loop h rejected [Settle 0] in
  ls_nonce rejected = None
  /\ map (@awaited jsstring) (ls_tasks rejected)
     = [Some (create_call p1 (Some 7%Z)); None]
  /\ ls_nonce accepted = Some 1%Z
  /\ map (@awaited jsstring) (ls_tasks accepted)
     = [Some (TxWait (Tx (js "0x1"))); None].
Proof.
  intros h p1 p2.
  exact (@reset_during_a_write_leaves_the_nonce_at_one h p1 p2 7%Z
           (O, [Some (js "nonce too low")]) (1%nat, []) (2%nat, [])
           (Error (js "nonce too low")) (Tx (js "0x1"))
           eq_refl eq_refl eq_refl).
Defined.

(** ** More about the adjudicator *)

Lemma trimStart_app : forall l m,
  trimStart (l ++ m)
  = if forallb isWhiteSpace l then trimStart m else trimStart l ++ m.
Proof.
  induction l as [|c l IH]; intro m; simpl; [reflexivity|].
  destruct (isWhiteSpace c); simpl; [apply IH|reflexivity].
Qed.

Lemma trimStart_white_space : forall ws,
  forallb isWhiteSpace ws = true -> trimStart ws = [].
Proof.
  intros ws H. rewrite <- (app_nil_r ws), trimStart_app_ws by assumption.
  reflexivity.
Qed.

Lemma trimEnd_app : forall a b,
  trimEnd (a ++ b)
  = if forallb isWhiteSpace b then trimEnd a else a ++ trimEnd b.
Proof.
  intros a b. unfold trimEnd. rewrite rev_app_distr, trimStart_app, forallb_rev.
  destruct (forallb isWhiteSpace b); [reflexivity|].
  rewrite rev_app_distr, rev_involutive. reflexivity.
Qed.

Lemma trimEnd_white_space : forall ws,
  forallb isWhiteSpace ws = true -> trimEnd ws = [].
Proof.
  intros ws H. unfold trimEnd.
  rewrite trimStart_white_space by (rewrite forallb_rev; assumption).
  reflexivity.
Qed.

(** White space around a text does not change what [trim] leaves of it. *)
Lemma trim_padded : forall ws1 s ws2,
  forallb isWhiteSpace ws1 = true -> forallb isWhiteSpace ws2 = true ->
  trim (ws1 ++ s ++ ws2) = trim s.
Proof.
  intros ws1 s ws2 H1 H2. unfold trim.
  rewrite app_assoc, trimEnd_app, H2, trimEnd_app.
  destruct (forallb isWhiteSpace s) eqn:Hs.
  - rewrite trimEnd_white_space by assumption.
    rewrite (trimEnd_white_space s) by assumption. reflexivity.
  - apply trimStart_app_ws. assumption.
Qed.

(** X19: The verdict does not depend on white space or empty lines before and
    after the response: the adjudicator reads a response padded with them
    as it reads the response itself. *)
Theorem verdict_ignores_surrounding_white_space :
  forall (ws1 content ws2 : jsstring),
    forallb isWhiteSpace ws1 = true ->
    forallb isWhiteSpace ws2 = true ->
    parse_outcome (ws1 ++ content ++ ws2) = parse_outcome content.
Proof.
  intros ws1 content ws2 H1 H2. unfold parse_outcome.
  rewrite trim_padded by assumption. reflexivity.
Qed.

Lemma verdict_ignores_surrounding_white_space_witness :
  parse_outcome ([LF; 32%N] ++ (js "It happened." ++ LF :: js "1") ++ [32%N; LF; LF])
  = parse_outcome (js "It happened." ++ LF :: js "1").
Proof.
  apply (@verdict_ignores_surrounding_white_space [LF; 32%N]
           (js "It happened." ++ LF :: js "1") [32%N; LF; LF]);
    reflexivity.
Defined.

(** X20: A response with nothing but white space in it, the empty response
    among them, has no verdict: the adjudication fails with the invalid
    outcome error, it does not resolve to 0. *)
Theorem blank_response_has_no_verdict :
  forall content : jsstring,
    forallb isWhiteSpace content = true ->
    parse_outcome content = inl invalid_outcome.
Proof.
  intros content H. unfold parse_outcome, trim.
  rewrite trimEnd_white_space by assumption. reflexivity.
Qed.

Lemma blank_response_has_no_verdict_witness :
  parse_outcome [32%N; LF; 9%N] = inl invalid_outcome.
Proof.
  apply (@blank_response_has_no_verdict [32%N; LF; 9%N]). reflexivity.
Defined.

Lemma exact_final_line_is_the_verdict_witness :
  parse_outcome (js "The data confirms it." ++ LF :: js "0" ++ [32%N; LF])
  = inr (number_of_Z 0)
  /\ parse_outcome (js "The data confirms it." ++ LF :: js "1" ++ [32%N; LF])
     = inr (number_of_Z 1).
Proof.
  apply (@exact_final_line_is_the_verdict (js "The data confirms it.") [32%N; LF]).
  reflexivity.
Defined.

(** ** The creation flow after a stale rejection *)

Lemma fresh_submission_log : forall h prediction w,
  exists later,
    log (run h (createPredictionOnContract prediction) None w)
    = Entry GetTransactionCount (fst (respond h GetTransactionCount w)) :: later
    /\ match fst (respond h GetTransactionCount w) with
       | inr count => sent_overrides later = [Nonce (Some count)]
       | inl _ => later = []
       end.
Proof.
  intros h prediction w. rewrite run_createPredictionOnContract.
  unfold submission, broadcast, caught.
  destruct (respond h GetTransactionCount w) as [[e|count] w0]; simpl.
  - eexists. split; reflexivity.
  - destruct (respond h _ w0) as [[e|t] w1]; simpl.
    + eexists. split; reflexivity.
    + destruct (respond h (TxWait t) w1) as [[e|b] w2]; simpl;
        eexists; split; reflexivity.
Qed.

Lemma stale_write_outcome : forall h prediction n w w1 error,
  respond h (create_call prediction (Some n)) w = (inl error, w1) ->
  includes (js "nonce too low") (message error) = true ->
  run h (createPredictionOnContract prediction) (Some n) w
  = Outcome (inl (creation_failed error)) None w1
      [Entry (create_call prediction (Some n)) (inl error)].
Proof.
  intros h prediction n w w1 error Hreject Hstale.
  rewrite run_createPredictionOnContract.
  unfold submission, broadcast, caught. unfold create_call in Hreject.
  rewrite Hreject, Hstale. reflexivity.
Qed.

(** X16: The creation flow heals within the request: when the contract write of
    a prediction is rejected as stale, the submission of the next
    prediction starts by reading the transaction count again; where that
    read is fulfilled, the count read is the nonce the next write attaches,
    and where it is rejected, no write is made for that prediction. *)
Theorem creation_flow_reads_the_count_again_after_a_stale_write :
  forall (h : handler) (p1 p2 : object) (created : list json)
         (n : Z) (w w1 : world h) (error : exn),
    respond h (create_call p1 (Some n)) w = (inl error, w1) ->
    includes (js "nonce too low") (message error) = true ->
    let o := run h (create_loop [p1; p2] created) (Some n) w in
    let read := fst (respond h GetTransactionCount w1) in
    exists later,
      log o = Entry (create_call p1 (Some n)) (inl error)
              :: Entry GetTransactionCount read :: later
      /\ match read with
         | inr count => sent_overrides later = [Nonce (Some count)]
         | inl _ => later = []
         end.
Proof.
  intros h p1 p2 created n w w1 error Hreject Hstale o read. subst o read.
  rewrite run_create_loop_cons. cbv zeta.
  rewrite (@stale_write_outcome h p1 n w w1 error Hreject Hstale).
  cbn [log nonce_after world_after result app].
  rewrite run_create_loop_cons. cbv zeta. cbn [create_loop run log].
  rewrite app_nil_r.
  destruct (@fresh_submission_log h p2 w1) as (later & Hlog & Hsent).
  exists later. rewrite Hlog. split; [reflexivity|exact Hsent].
Qed.

Lemma creation_flow_reads_the_count_again_after_a_stale_write_witness :
  let h := scripted demo_stock in
  let p1 := nth 0 demo_predictions [] in
  let p2 := nth 1 demo_predictions [] in
  let o := run h (create_loop [p1; p2] []) (Some 3%Z)
             (O, [Some (js "nonce too low")]) in
  let read := fst (respond h GetTransactionCount (1%nat, [])) in
  exists later,
    log o = Entry (create_call p1 (Some 3%Z)) (inl (Error (js "nonce too low")))
            :: Entry GetTransactionCount read :: later
    /\ match read with
       | inr count => sent_overrides later = [Nonce (Some count)]
       | inl _ => later = []
       end.
Proof.
  intros h p1 p2.
  exact (@creation_flow_reads_the_count_again_after_a_stale_write h p1 p2 [] 3%Z
           (O, [Some (js "nonce too low")]) (1%nat, [])
           (Error (js "nonce too low")) eq_refl eq_refl).
Defined.

(** ** What the generator accepts from the model

    [JSON.parse] yields an array only for a text whose first character,
    white space apart, opens an array. *)

Lemma lex_prefix : forall s m toks ts,
  lex m toks s = Some ts -> exists tail, ts = rev toks ++ tail.
Proof.
  induction s as [|c s IH]; intros m toks ts H; simpl in H.
  - destruct m; try discriminate; injection H as <-.
    + exists []. simpl. rewrite app_nil_r. reflexivity.
    + exists [TWord (rev w_rev)]. reflexivity.
  - destruct m as [|w|acc|acc|acc k code].
    + destruct (is_json_ws c); [eapply IH; exact H|].
      destruct (c =? 34)%N; [eapply IH; exact H|].
      destruct (structural c) as [t|].
      * apply IH in H as [tail ->]. simpl. rewrite <- app_assoc.
        eexists. reflexivity.
      * eapply IH; exact H.
    + destruct (is_json_ws c);
        [apply IH in H as [tail ->]; simpl; rewrite <- app_assoc; eexists; reflexivity|].
      destruct (c =? 34)%N;
        [apply IH in H as [tail ->]; simpl; rewrite <- app_assoc; eexists; reflexivity|].
      destruct (structural c) as [t|].
      * apply IH in H as [tail ->]. simpl. rewrite <- !app_assoc.
        eexists. reflexivity.
      * eapply IH; exact H.
    + destruct (c =? 34)%N;
        [apply IH in H as [tail ->]; simpl; rewrite <- app_assoc; eexists; reflexivity|].
      destruct (c =? 92)%N; [eapply IH; exact H|].
      destruct (c <? 32)%N; [discriminate|eapply IH; exact H].
    + destruct (c =? 117)%N; [eapply IH; exact H|].
      destruct (escape_value c); [eapply IH; exact H|discriminate].
    + destruct (hex_value c); [|discriminate].
      destruct k as [|[|k]]; eapply IH; exact H.
Qed.

(** Read in a word: the first token is that word. *)
Lemma lex_word_first : forall s w ts,
  lex (InWord w) [] s = Some ts -> exists w' tail, ts = TWord w' :: tail.
Proof.
  induction s as [|c s IH]; intros w ts H; simpl in H.
  - injection H as <-. eexists _, _. reflexivity.
  - destruct (is_json_ws c);
      [apply lex_prefix in H as [tail ->]; eexists _, _; reflexivity|].
    destruct (c =? 34)%N;
      [apply lex_prefix in H as [tail ->]; eexists _, _; reflexivity|].
    destruct (structural c) as [t|].
    + apply lex_prefix in H as [tail ->]. eexists _, _. reflexivity.
    + eapply IH; exact H.
Qed.

(** Read in a string: the first token is that string. *)
Lemma lex_string_first : forall s m ts,
  match m with
  | InString _ | Escape _ | Unicode _ _ _ => True
  | _ => False
  end ->
  lex m [] s = Some ts -> exists str tail, ts = TString str :: tail.
Proof.
  induction s as [|c s IH]; intros m ts Hm H; simpl in H.
  - destruct m; try contradiction; discriminate.
  - destruct m as [|w|acc|acc|acc k code]; try contradiction.
    + destruct (c =? 34)%N;
        [apply lex_prefix in H as [tail ->]; eexists _, _; reflexivity|].
      destruct (c =? 92)%N; [eapply IH; [|exact H]; exact I|].
      destruct (c <? 32)%N; [discriminate|eapply IH; [|exact H]; exact I].
    + destruct (c =? 117)%N; [eapply IH; [|exact H]; exact I|].
      destruct (escape_value c); [eapply IH; [|exact H]; exact I|discriminate].
    + destruct (hex_value c); [|discriminate].
      destruct k as [|[|k]]; (eapply IH; [|exact H]; exact I).
Qed.

Lemma structural_bracket : forall c t,
  structural c = Some t -> is_bracket t = true -> c = 91%N.
Proof.
  intros c t H Ht. unfold structural in H.
  destruct (c =? 123)%N; [injection H as <-; discriminate|].
  destruct (c =? 125)%N; [injection H as <-; discriminate|].
  destruct (c =? 91)%N eqn:E; [apply N.eqb_eq in E; exact E|].
  destruct (c =? 93)%N; [injection H as <-; discriminate|].
  destruct (c =? 58)%N; [injection H as <-; discriminate|].
  destruct (c =? 44)%N; [injection H as <-; discriminate|discriminate].
Qed.

(** The tokens start with an opening bracket only where the text does. *)
Lemma lex_bracket_first : forall s ts t,
  lex Between [] s = Some (t :: ts) -> is_bracket t = true ->
  exists ws rest, forallb is_json_ws ws = true /\ s = ws ++ 91%N :: rest.
Proof.
  induction s as [|c s IH]; intros ts t H Ht; simpl in H; [discriminate|].
  destruct (is_json_ws c) eqn:Hws.
  - destruct (IH ts t H Ht) as (ws & rest & Hall & ->).
    exists (c :: ws), rest. simpl. rewrite Hws, Hall. auto.
  - destruct (c =? 34)%N.
    + apply lex_string_first in H as (str & tail & Heq); [|exact I].
      injection Heq as -> _. discriminate.
    + destruct (structural c) as [t'|] eqn:Hst.
      * apply lex_prefix in H as [tail Heq]. simpl in Heq. injection Heq as -> _.
        apply (structural_bracket c Hst) in Ht. subst c.
        exists [], s. auto.
      * apply lex_word_first in H as (w' & tail & Heq).
        injection Heq as -> _. discriminate.
Qed.

Lemma bottom_cons : forall f g stack, bottom (f :: g :: stack) = bottom (g :: stack).
Proof. reflexivity. Qed.

Lemma bottom_nonempty : forall g stack, bottom (g :: stack) <> None.
Proof.
  intros g stack. revert g. induction stack as [|f stack IH]; intro g.
  - discriminate.
  - rewrite bottom_cons. apply IH.
Qed.

(** A value completed below an outermost object leaves the parser in that
    object. *)
Lemma complete_in_object : forall v stack,
  match bottom stack with
  | Some (FObj _ _) => True
  | Some (FArr _) => False
  | None => match v with
            | JObj _ => True
            | _ => False
            end
  end ->
  in_object (fst (complete v stack)) (snd (complete v stack)).
Proof.
  intros v stack H. destruct stack as [|f rest];
    [simpl in *; split; [reflexivity|exact H]|].
  destruct rest as [|g stack].
  - destruct f; simpl in *; [contradiction|exact I].
  - rewrite bottom_cons in H. pose proof (@bottom_nonempty g stack) as Hne.
    destruct f; cbn [complete fst snd in_object]; try rewrite bottom_cons;
      destruct (bottom (g :: stack)) as [[|]|]; auto; congruence.
Qed.

Lemma pstep_in_object : forall m stack t m' stack',
  in_object m stack -> pstep m stack t = Some (m', stack') -> in_object m' stack'.
Proof.
  intros m stack t m' stack' Hin Hstep.
  assert (Hcomplete : forall v,
             match bottom stack with
             | Some (FObj _ _) => True
             | Some (FArr _) => False
             | None => match v with
                       | JObj _ => True
                       | _ => False
                       end
             end ->
             complete v stack = (m', stack') -> in_object m' stack').
  { intros v Hb Heq. pose proof (complete_in_object v stack Hb) as H.
    rewrite Heq in H. exact H. }
  assert (Hclose : forall items rest,
             stack = FArr items :: rest ->
             match bottom stack with
             | Some (FObj _ _) => True
             | _ => False
             end ->
             complete (JArr (rev items)) rest = (m', stack') -> in_object m' stack').
  { intros items rest -> Hb Heq.
    pose proof (complete_in_object (JArr (rev items)) rest) as H.
    rewrite Heq in H. apply H.
    destruct rest as [|g rest]; [simpl in Hb; contradiction|].
    rewrite bottom_cons in Hb.
    destruct (bottom (g :: rest)) as [[|]|]; auto; contradiction. }
  destruct m; cbn [in_object] in Hin; simpl in Hstep.
  - (* MValue *)
    destruct (bottom stack) as [[|]|] eqn:Hb; try contradiction.
    destruct t; simpl in Hstep; try discriminate.
    + injection Hstep as <- <-. simpl. rewrite Hb. exact I.
    + injection Hstep as <- <-. cbn [in_object].
      destruct stack as [|g stack]; [discriminate|]. rewrite bottom_cons, Hb. exact I.
    + apply (Hcomplete (JStr s)); [try rewrite Hb; exact I|congruence].
    + destruct (word_value w) as [v|]; [|discriminate]. simpl in Hstep.
      apply (Hcomplete v); [try rewrite Hb; exact I|congruence].
  - (* MFirstElem *)
    destruct (bottom stack) as [[|]|] eqn:Hb; try contradiction.
    destruct t; simpl in Hstep; try discriminate.
    + injection Hstep as <- <-. simpl. rewrite Hb. exact I.
    + injection Hstep as <- <-. cbn [in_object].
      destruct stack as [|g stack]; [discriminate|]. rewrite bottom_cons, Hb. exact I.
    + unfold close_array in Hstep. destruct stack as [|[items|] rest]; try discriminate.
      apply (Hclose items rest eq_refl); [try rewrite Hb; exact I|congruence].
    + apply (Hcomplete (JStr s)); [try rewrite Hb; exact I|congruence].
    + destruct (word_value w) as [v|]; [|discriminate]. simpl in Hstep.
      apply (Hcomplete v); [try rewrite Hb; exact I|congruence].
  - (* MCommaOrCloseArr *)
    destruct (bottom stack) as [[|]|] eqn:Hb; try contradiction.
    destruct t; simpl in Hstep; try discriminate.
    + unfold close_array in Hstep. destruct stack as [|[items|] rest]; try discriminate.
      apply (Hclose items rest eq_refl); [try rewrite Hb; exact I|congruence].
    + injection Hstep as <- <-. simpl. rewrite Hb. exact I.
  - (* MKeyOrClose *)
    destruct t; simpl in Hstep; try discriminate.
    + apply (Hcomplete (JObj [])); [|congruence].
      destruct (bottom stack) as [[|]|]; auto.
    + injection Hstep as <- <-. simpl. destruct (bottom stack) as [[|]|]; auto.
  - (* MKey *)
    destruct t; simpl in Hstep; try discriminate.
    injection Hstep as <- <-. simpl. destruct (bottom stack) as [[|]|]; auto.
  - (* MColon *)
    destruct t; simpl in Hstep; try discriminate.
    injection Hstep as <- <-. cbn [in_object].
    destruct stack as [|g stack]; [exact I|].
    rewrite bottom_cons. pose proof (@bottom_nonempty g stack) as Hne.
    destruct (bottom (g :: stack)) as [[|]|]; auto; congruence.
  - (* MCommaOrCloseObj *)
    destruct t; simpl in Hstep; try discriminate.
    + apply (Hcomplete (JObj props)); [|congruence].
      destruct (bottom stack) as [[|]|]; auto.
    + injection Hstep as <- <-. simpl. destruct (bottom stack) as [[|]|]; auto.
  - discriminate.
Qed.

Lemma parse_tokens_in_object : forall ts m stack v,
  in_object m stack -> parse_tokens m stack ts = Some v ->
  match v with
  | JObj _ => True
  | _ => False
  end.
Proof.
  induction ts as [|t ts IH]; intros m stack v Hin H; simpl in H.
  - destruct m; try discriminate. injection H as <-. destruct Hin as [_ Hv]. exact Hv.
  - destruct (pstep m stack t) as [[m' stack']|] eqn:Hstep; [|discriminate].
    eapply IH; [|exact H]. eapply pstep_in_object; eassumption.
Qed.

Lemma word_value_no_array : forall w items, word_value w <> Some (JArr items).
Proof.
  intros w items. unfold word_value.
  destruct (str_eqb w (js "true")); [discriminate|].
  destruct (str_eqb w (js "false")); [discriminate|].
  destruct (str_eqb w (js "null")); [discriminate|].
  destruct (parse_number w); discriminate.
Qed.

(** An array is parsed only from tokens that start with an opening
    bracket. *)
Lemma parse_tokens_array : forall ts items,
  parse_tokens MValue [] ts = Some (JArr items) ->
  exists t ts', ts = t :: ts' /\ is_bracket t = true.
Proof.
  intros [|t ts] items H; simpl in H; [discriminate|].
  destruct t; simpl in H; try discriminate.
  - exfalso.
    apply (@parse_tokens_in_object ts MKeyOrClose [] (JArr items)) in H; [exact H|exact I].
  - eexists _, _. split; reflexivity.
  - destruct ts; simpl in H; [discriminate|discriminate].
  - destruct (word_value w) as [v|] eqn:Hw; simpl in H; [|discriminate].
    destruct ts; simpl in H; [|discriminate].
    injection H as ->. exfalso. exact (word_value_no_array _ Hw).
Qed.

Lemma JSON_parse_array : forall text items,
  JSON_parse text = Some (JArr items) ->
  exists ws rest, forallb is_json_ws ws = true /\ text = ws ++ 91%N :: rest.
Proof.
  intros text items H. unfold JSON_parse in H.
  destruct (lex Between [] text) as [ts|] eqn:Hlex; [|discriminate].
  apply parse_tokens_array in H as (t & ts' & -> & Ht).
  exact (lex_bracket_first text Hlex Ht).
Qed.

(** X3: The generator succeeds only on a completion whose first character,
    JSON white space apart, is an opening bracket: a completion that starts
    with a sentence, with a code fence or with an object fails the whole
    generation. *)
Theorem generation_needs_a_text_that_opens_an_array :
  forall (E : engine) (h : handler) (topic : value) (currentNonce : option Z)
         (w : world h) (predictions : list object),
    let o := run h (generatePredictions E topic) currentNonce w in
    result o = inr predictions ->
    exists digest content ws rest,
      log o = [Entry (PerplexityPost topic) (inr digest);
               Entry (GenerationCompletion topic digest) (inr content)]
      /\ forallb is_json_ws ws = true
      /\ content = ws ++ 91%N :: rest.
Proof.
  intros E h topic currentNonce w predictions o. subst o.
  unfold generatePredictions, getPerplexityData. simpl.
  destruct (respond h (PerplexityPost topic) w) as [[e|digest] w1]; simpl;
    [discriminate|].
  destruct (respond h (GenerationCompletion topic digest) w1) as [[e|content] w2];
    simpl; [discriminate|].
  destruct (JSON_parse content) as [[| | | |items|]|] eqn:Ep; simpl; try discriminate.
  intros _. destruct (JSON_parse_array content Ep) as (ws & rest & Hws & Heq).
  exists digest, content, ws, rest. auto.
Qed.

Lemma generation_needs_a_text_that_opens_an_array_witness :
  let o := run (scripted demo_stock) (generatePredictions v8 (Some (JStr (js "rates"))))
             None (O, []) in
  exists digest content ws rest,
    log o = [Entry (PerplexityPost (Some (JStr (js "rates")))) (inr digest);
             Entry (GenerationCompletion (Some (JStr (js "rates"))) digest)
               (inr content)]
    /\ forallb is_json_ws ws = true
    /\ content = ws ++ 91%N :: rest.
Proof.
  intro o.
  assert (Ho : result o = inr match result o with
                              | inr predictions => predictions
                              | inl _ => []
                              end) by (vm_compute; reflexivity).
  exact (@generation_needs_a_text_that_opens_an_array v8 (scripted demo_stock)
           (Some (JStr (js "rates"))) None (O, []) _ Ho).
Defined.
